(** * The [user] command-line plugin (omero/plugins/user.py)

    A shallow embedding of [UserControl] and its sub-commands
    [add], [list], [password], [email], [joingroup] and [leavegroup].

    The plugin is a client: every sub-command talks to the remote
    administrative service and to the console.  A sub-command is therefore
    embedded as a finite interaction tree [Prog]: its nodes are the console
    messages it writes and the external operations it invokes, and each
    operation node branches on the answer (a value or a raised exception).
    Running a tree against an arbitrary stateful environment yields the
    trace of events of one invocation and its outcome.

    What the plugin imports is not part of the file: the base class
    [UserGroupControl] and [ExceptionHandler] of omero.cli, the exception
    classes of omero, [rstring] and [unwrap] of omero.rtypes and
    [TableBuilder] of omero.util.text.  Their routines appear as operations
    of the environment or as parameters.  Opening the session
    ([ctx.conn], [getAdminService]) leaves no event in a trace. *)

From Stdlib Require Import ZArith List String Ascii Bool Lia.
From Stdlib Require Import Permutation Sorting.Sorted.
From Stdlib Require Import DecimalString DecimalZ.
Import ListNotations.

Local Open Scope Z_scope.
Local Open Scope list_scope.
Local Open Scope string_scope.

(** ** Python values *)

(** [str(n)] / ["%s" % n] for an integer. *)
Definition str (z : Z) : string := NilEmpty.string_of_int (Z.to_int z).

(** The characters ["\n"] and the double quote. *)
Definition nl : string := String (ascii_of_nat 10) EmptyString.
Definition dquote : string := String (ascii_of_nat 34) EmptyString.

(** [l.append(x)] *)
Definition append {A : Type} (l : list A) (x : A) : list A := (l ++ [x])%list.

(** [x in l] on integers. *)
Definition mem (x : Z) (l : list Z) : bool := existsb (Z.eqb x) l.

(** Truth value of an unwrapped optional string, [_(x)]: [None] and [""]
    are false. *)
Definition truthy (o : option string) : bool :=
  match o with
  | Some EmptyString => false
  | Some _ => true
  | None => false
  end.

(** [if o: t(o) else: f] on an unwrapped optional string. *)
Definition if_truthy {A : Type} (o : option string) (t : string -> A) (f : A) : A :=
  match o with
  | Some EmptyString => f
  | Some s => t s
  | None => f
  end.

(** [sep.join(l)] *)
Definition join (sep : string) (l : list string) : string := String.concat sep l.

(** ** Data model *)

(** A link of [copyGroupExperimenterMap()]: [parent] is the group's id,
    [child] the experimenter's id, [owner] the owner flag. *)
Record GroupExperimenterMap : Type := mkLink {
  parent : Z;
  child : Z;
  owner : bool
}.

(** [ExperimenterGroupI].  [Grp(id, False)] is the unloaded object. *)
Record ExperimenterGroup : Type := mkGroup {
  group_id : Z;
  group_loaded : bool;
  group_map : list GroupExperimenterMap
}.

Definition Grp (gid : Z) (loaded : bool) : ExperimenterGroup :=
  {| group_id := gid; group_loaded := loaded; group_map := [] |}.

Definition link_eq_dec (x y : GroupExperimenterMap) : {x = y} + {x <> y}.
Proof. decide equality; auto using Z.eq_dec, bool_dec. Defined.

Definition group_eq_dec (x y : ExperimenterGroup) : {x = y} + {x <> y}.
Proof. decide equality; auto using Z.eq_dec, bool_dec, list_eq_dec, link_eq_dec. Defined.

(** [l.remove(x)]: deletes the first element equal to [x].  Groups are equal
    when their fields are. *)
Fixpoint remove_first (x : ExperimenterGroup) (l : list ExperimenterGroup)
  : list ExperimenterGroup :=
  match l with
  | [] => []
  | y :: l' => if group_eq_dec x y then l' else y :: remove_first x l'
  end.

(** The fields of an [ExperimenterI] that the plugin reads and writes. *)
Record ExperimenterI : Type := mkExp {
  omeName : string;
  firstName : string;
  middleName : option string;
  lastName : string;
  email : option string;
  institution : option string
}.

(** An experimenter as the service returns it: with its id and its group
    links; a link may be null. *)
Record Experimenter : Type := mkUser {
  id : Z;
  details : ExperimenterI;
  groupExperimenterMap : list (option GroupExperimenterMap)
}.

(** [getSecurityRoles()] *)
Record Roles : Type := mkRoles {
  userGroupId : Z;
  systemGroupId : Z
}.

(** The parsed arguments of the sub-commands, and the rows of [list]. *)

Record PasswordArgs : Type := mkPasswordArgs {
  pa_username : option string
}.

Record EmailArgs : Type := mkEmailArgs {
  ea_names : bool;
  ea_one : bool;
  ea_ignore : bool
}.

(** A row of the table, by column. *)
Record Row : Type := mkRow {
  col_id : Z;
  col_omeName : string;
  col_firstName : string;
  col_lastName : string;
  col_email : string;
  col_active : string;
  col_admin : string;
  col_member_of : string;
  col_leader_of : string
}.

Record AddArgs : Type := mkAddArgs {
  arg_username : string;
  arg_firstname : string;
  arg_lastname : string;
  arg_member_of : list string;
  arg_middlename : option string;
  arg_email : option string;
  arg_institution : option string;
  arg_userpassword : option string;
  arg_admin : bool;
  arg_ignore_existing : bool
}.

Record GroupArgs : Type := mkGroupArgs {
  ga_GROUP : list string;
  ga_as_owner : bool;
  ga_id : option string;
  ga_name : option string
}.

(** Exceptions.  [NonZeroReturnCode rc] is what [ctx.die(rc, msg)] raises:
    it ends the process with exit code [rc]. *)
Inductive exn : Type :=
| ApiUsageException (message : string)
| ValidationException (message : string)
| SecurityViolation (message : string)
| NonZeroReturnCode (rc : Z)
| OtherException (message : string).

(** The classes are those of omero, which is not part of this file.  Of
    their hierarchy the model keeps that [ValidationException] is a subclass
    of [ApiUsageException]: a clause [except omero.ApiUsageException]
    catches both, a clause [except omero.ValidationException] the subclass
    only.  [SecurityViolation] is a subclass of neither. *)
Definition is_api_usage (x : exn) : bool :=
  match x with
  | ApiUsageException _ | ValidationException _ => true
  | _ => false
  end.

(** [x.message] *)
Definition message_of (x : exn) : string :=
  match x with
  | ApiUsageException message | ValidationException message
  | SecurityViolation message | OtherException message => message
  | NonZeroReturnCode _ => EmptyString
  end.

(** [rstring] of omero.rtypes, which is not part of this file, on an optional
    argument of the command line: the value wrapped, and the empty string
    wrapped for [None]. *)
Definition rstring (val : option string) : option string :=
  match val with
  | Some s => Some s
  | None => Some EmptyString
  end.

(** ** External operations *)

(** The operations of the administrative service and of the session that
    the plugin consumes, and the routines of its base class
    [UserGroupControl] (omero.cli), which are not part of this file. *)
Inductive op : Type :=
(* remote service *)
| LookupExperimenters
| LookupExperimenter (login : string)
| LookupGroup (name : string)
| GetSecurityRoles
| CreateExperimenter (e : ExperimenterI)
    (primary : ExperimenterGroup) (secondary : list ExperimenterGroup)
| CreateExperimenterWithPassword (e : ExperimenterI) (pw : string)
    (primary : ExperimenterGroup) (secondary : list ExperimenterGroup)
| SetSecurityPassword (pw : string)
| ChangePassword (pw : string)
| ChangeUserPassword (login : string) (pw : string)
(* base class *)
| AskForPassword (reason : string) (strict : option bool)
| FindUserById (key : string) (fatal : bool)
| FindUserByName (name : string) (fatal : bool)
| FindGroup (key : string) (fatal : bool)
| ErrorNoGroupFound (fatal : bool)
| AddUsersById (group : ExperimenterGroup) (users : list Z)
| AddOwnersById (group : ExperimenterGroup) (users : list Z)
| RemoveUsersById (group : ExperimenterGroup) (users : list Z)
| RemoveOwnersById (group : ExperimenterGroup) (users : list Z).

(** The type of the value an operation returns. *)
Definition resp (c : op) : Type :=
  match c with
  | LookupExperimenters => list Experimenter
  | LookupExperimenter _ => option Experimenter
  | LookupGroup _ => ExperimenterGroup
  | GetSecurityRoles => Roles
  | CreateExperimenter _ _ _ => Z
  | CreateExperimenterWithPassword _ _ _ _ => Z
  | SetSecurityPassword _ => unit
  | ChangePassword _ => unit
  | ChangeUserPassword _ _ => unit
  | AskForPassword _ _ => string
  | FindUserById _ _ => Z * string
  | FindUserByName _ _ => Z * string
  | FindGroup _ _ => option Z * option ExperimenterGroup
  | ErrorNoGroupFound _ => unit
  | AddUsersById _ _ => unit
  | AddOwnersById _ _ => unit
  | RemoveUsersById _ _ => unit
  | RemoveOwnersById _ _ => unit
  end.

Inductive result (A : Type) : Type :=
| Ok (a : A)
| Raised (e : exn).
Arguments Ok {A} a.
Arguments Raised {A} e.

(** ** Programs *)

Inductive Prog (A : Type) : Type :=
| Ret (a : A)
| Throw (e : exn)
| Out (s : string) (k : Prog A)
| Err (s : string) (k : Prog A)
| Dbg (s : string) (k : Prog A)
| Call (c : op) (k : result (resp c) -> Prog A).
Arguments Ret {A} a.
Arguments Throw {A} e.
Arguments Out {A} s k.
Arguments Err {A} s k.
Arguments Dbg {A} s k.
Arguments Call {A} c k.

Fixpoint bind {A B : Type} (p : Prog A) (f : A -> Prog B) : Prog B :=
  match p with
  | Ret a => f a
  | Throw e => Throw e
  | Out s k => Out s (bind k f)
  | Err s k => Err s (bind k f)
  | Dbg s k => Dbg s (bind k f)
  | Call c k => Call c (fun r => bind (k r) f)
  end.

Notation "x <- p ;; q" := (bind p (fun x => q))
  (at level 61, p at next level, right associativity).
Notation "p ;; q" := (bind p (fun _ => q))
  (at level 61, right associativity).

(** [try: p  except <filter>: handler].  [handler e = None] when no
    [except] clause matches [e]. *)
Fixpoint try_except {A : Type} (p : Prog A) (handler : exn -> option (Prog A))
  : Prog A :=
  match p with
  | Ret a => Ret a
  | Throw e => match handler e with Some q => q | None => Throw e end
  | Out s k => Out s (try_except k handler)
  | Err s k => Err s (try_except k handler)
  | Dbg s k => Dbg s (try_except k handler)
  | Call c k => Call c (fun r => try_except (k r) handler)
  end.

(** An operation whose exception propagates. *)
Definition call (c : op) : Prog (resp c) :=
  Call c (fun r => match r with Ok v => Ret v | Raised e => Throw e end).

(** The operations under the names the plugin calls them by. *)
Definition lookupExperimenters : Prog (list Experimenter) :=
  call LookupExperimenters.
Definition lookupExperimenter (login : string) : Prog (option Experimenter) :=
  call (LookupExperimenter login).
Definition lookupGroup (name : string) : Prog ExperimenterGroup :=
  call (LookupGroup name).
Definition getSecurityRoles : Prog Roles :=
  call GetSecurityRoles.
Definition createExperimenter (e : ExperimenterI)
    (primary : ExperimenterGroup) (secondary : list ExperimenterGroup) : Prog Z :=
  call (CreateExperimenter e primary secondary).
Definition createExperimenterWithPassword (e : ExperimenterI) (pw : string)
    (primary : ExperimenterGroup) (secondary : list ExperimenterGroup) : Prog Z :=
  call (CreateExperimenterWithPassword e pw primary secondary).
Definition setSecurityPassword (pw : string) : Prog unit :=
  call (SetSecurityPassword pw).
Definition changePassword (pw : string) : Prog unit :=
  call (ChangePassword pw).
Definition changeUserPassword (login pw : string) : Prog unit :=
  call (ChangeUserPassword login pw).
Definition _ask_for_password (reason : string) (strict : option bool) : Prog string :=
  call (AskForPassword reason strict).
Definition find_user_by_id (key : string) (fatal : bool) : Prog (Z * string) :=
  call (FindUserById key fatal).
Definition find_user_by_name (name : string) (fatal : bool) : Prog (Z * string) :=
  call (FindUserByName name fatal).
Definition find_group (key : string) (fatal : bool)
  : Prog (option Z * option ExperimenterGroup) :=
  call (FindGroup key fatal).
Definition error_no_group_found (fatal : bool) : Prog unit :=
  call (ErrorNoGroupFound fatal).
Definition addusersbyid (group : ExperimenterGroup) (users : list Z) : Prog unit :=
  call (AddUsersById group users).
Definition addownersbyid (group : ExperimenterGroup) (users : list Z) : Prog unit :=
  call (AddOwnersById group users).
Definition removeusersbyid (group : ExperimenterGroup) (users : list Z) : Prog unit :=
  call (RemoveUsersById group users).
Definition removeownersbyid (group : ExperimenterGroup) (users : list Z) : Prog unit :=
  call (RemoveOwnersById group users).

Definition out (s : string) : Prog unit := Out s (Ret tt).
Definition err (s : string) : Prog unit := Err s (Ret tt).
Definition dbg (s : string) : Prog unit := Dbg s (Ret tt).

(** Modelled from the spec: [ctx.die] of omero.cli, which is not part of this
    file.  A fatal error reports its message on the error channel and ends
    the process with the given exit code; nothing after it runs. *)
Definition die {A : Type} (rc : Z) (msg : string) : Prog A :=
  Err msg (Throw (NonZeroReturnCode rc)).

(** [for x in xs: body x] *)
Fixpoint for_each {A : Type} (xs : list A) (body : A -> Prog unit) : Prog unit :=
  match xs with
  | [] => Ret tt
  | x :: xs' => body x ;; for_each xs' body
  end.

(** [[f x for x in xs]] *)
Fixpoint comprehension {A B : Type} (xs : list A) (f : A -> Prog B)
  : Prog (list B) :=
  match xs with
  | [] => Ret []
  | x :: xs' => y <- f x ;; ys <- comprehension xs' f ;; Ret (y :: ys)
  end.

(** ** Running a program *)

Inductive event : Type :=
| EvOut (s : string)
| EvErr (s : string)
| EvDbg (s : string)
| EvCall (c : op) (r : result (resp c)).

Inductive outcome (A : Type) : Type :=
| Returned (a : A)
| Uncaught (e : exn).
Arguments Returned {A} a.
Arguments Uncaught {A} e.

(** The environment of an invocation: the server and the console, with a
    state of their own. *)
Definition env (W : Type) : Type := forall c : op, W -> result (resp c) * W.

Fixpoint run {W A : Type} (h : env W) (w : W) (p : Prog A)
  : list event * outcome A * W :=
  match p with
  | Ret a => ([], Returned a, w)
  | Throw e => ([], Uncaught e, w)
  | Out s k => let '(t, o, w') := run h w k in (EvOut s :: t, o, w')
  | Err s k => let '(t, o, w') := run h w k in (EvErr s :: t, o, w')
  | Dbg s k => let '(t, o, w') := run h w k in (EvDbg s :: t, o, w')
  | Call c k =>
      let (r, w1) := h c w in
      let '(t, o, w') := run h w1 (k r) in (EvCall c r :: t, o, w')
  end.

(** The trace and the outcome of one invocation. *)
Definition trace {W A : Type} (h : env W) (w : W) (p : Prog A) : list event :=
  fst (fst (run h w p)).

Definition outcome_of {W A : Type} (h : env W) (w : W) (p : Prog A) : outcome A :=
  snd (fst (run h w p)).

(** The process exit code of an outcome: 0 on normal return, [rc] after
    [die rc]; an uncaught exception of another kind has none here. *)
Definition exit_code {A : Type} (o : outcome A) : option Z :=
  match o with
  | Returned _ => Some 0
  | Uncaught (NonZeroReturnCode rc) => Some rc
  | Uncaught _ => None
  end.

(** *** Observations on a trace *)

Definition calls (t : list event) : list op :=
  flat_map (fun e => match e with EvCall c _ => [c] | _ => [] end) t.

Definition outs (t : list event) : list string :=
  flat_map (fun e => match e with EvOut s => [s] | _ => [] end) t.

Definition errs (t : list event) : list string :=
  flat_map (fun e => match e with EvErr s => [s] | _ => [] end) t.

(** The exception, if any, with which an event's operation failed. *)
Definition failure (e : event) : option (op * exn) :=
  match e with
  | EvCall c (Raised x) => Some (c, x)
  | _ => None
  end.

Definition failures (t : list event) : list (op * exn) :=
  flat_map (fun e => match failure e with Some f => [f] | None => [] end) t.

Definition succeeded (e : event) : option op :=
  match e with
  | EvCall c (Ok _) => Some c
  | _ => None
  end.

Definition successes (t : list event) : list op :=
  flat_map (fun e => match succeeded e with Some c => [c] | None => [] end) t.

(** The answers of the operations that succeeded, by kind: the groups that
    [lookupGroup] resolved, the roles, the ids of the experimenters created
    and the passwords typed at the prompts. *)
Definition resolved_group (e : event) : option ExperimenterGroup :=
  match e with
  | EvCall c r =>
      match c as c0 return result (resp c0) -> option ExperimenterGroup with
      | LookupGroup _ => fun r => match r with Ok g => Some g | Raised _ => None end
      | _ => fun _ => None
      end r
  | _ => None
  end.

Definition roles_read (e : event) : option Roles :=
  match e with
  | EvCall c r =>
      match c as c0 return result (resp c0) -> option Roles with
      | GetSecurityRoles => fun r => match r with Ok g => Some g | Raised _ => None end
      | _ => fun _ => None
      end r
  | _ => None
  end.

Definition created_id (e : event) : option Z :=
  match e with
  | EvCall c r =>
      match c as c0 return result (resp c0) -> option Z with
      | CreateExperimenter _ _ _ =>
          fun r => match r with Ok i => Some i | Raised _ => None end
      | CreateExperimenterWithPassword _ _ _ _ =>
          fun r => match r with Ok i => Some i | Raised _ => None end
      | _ => fun _ => None
      end r
  | _ => None
  end.


Definition resolved_user (e : event) : option (Z * string) :=
  match e with
  | EvCall c r =>
      match c as c0 return result (resp c0) -> option (Z * string) with
      | FindUserById _ _ =>
          fun r => match r with Ok u => Some u | Raised _ => None end
      | FindUserByName _ _ =>
          fun r => match r with Ok u => Some u | Raised _ => None end
      | _ => fun _ => None
      end r
  | _ => None
  end.

Definition found_group (e : event) : option ExperimenterGroup :=
  match e with
  | EvCall c r =>
      match c as c0 return result (resp c0) -> option ExperimenterGroup with
      | FindGroup _ _ =>
          fun r => match r with Ok g => snd g | Raised _ => None end
      | _ => fun _ => None
      end r
  | _ => None
  end.

Definition collect {A : Type} (f : event -> option A) (t : list event) : list A :=
  flat_map (fun e => match f e with Some a => [a] | None => [] end) t.

Definition is_remote (c : op) : bool :=
  match c with
  | LookupExperimenters | LookupExperimenter _ | LookupGroup _
  | GetSecurityRoles | CreateExperimenter _ _ _
  | CreateExperimenterWithPassword _ _ _ _ | SetSecurityPassword _
  | ChangePassword _ | ChangeUserPassword _ _ => true
  | _ => false
  end.


Definition is_password_change (c : op) : bool :=
  match c with
  | ChangePassword _ | ChangeUserPassword _ _ => true
  | _ => false
  end.

Definition is_creation (c : op) : bool :=
  match c with
  | CreateExperimenter _ _ _ | CreateExperimenterWithPassword _ _ _ _ => true
  | _ => false
  end.

Definition is_mutation (c : op) : bool :=
  match c with
  | AddUsersById _ _ | AddOwnersById _ _
  | RemoveUsersById _ _ | RemoveOwnersById _ _ => true
  | _ => false
  end.

(** The group a membership call is about. *)
Definition mutated_group (c : op) : option ExperimenterGroup :=
  match c with
  | AddUsersById g _ | AddOwnersById g _
  | RemoveUsersById g _ | RemoveOwnersById g _ => Some g
  | _ => None
  end.

(** More observations: the user that [lookupExperimenter] found, the users
    that [lookupExperimenters] listed, and the debug messages. *)
Definition found_user (e : event) : option Experimenter :=
  match e with
  | EvCall c r =>
      match c as c0 return result (resp c0) -> option Experimenter with
      | LookupExperimenter _ =>
          fun r => match r with Ok u => u | Raised _ => None end
      | _ => fun _ => None
      end r
  | _ => None
  end.

Definition listed_users (e : event) : option (list Experimenter) :=
  match e with
  | EvCall c r =>
      match c as c0 return result (resp c0) -> option (list Experimenter) with
      | LookupExperimenters =>
          fun r => match r with Ok us => Some us | Raised _ => None end
      | _ => fun _ => None
      end r
  | _ => None
  end.

Definition dbgs (t : list event) : list string :=
  flat_map (fun e => match e with EvDbg s => [s] | _ => [] end) t.

(** *** The answers of the environment *)

(** The events of the requests [cs] made one after the other from the state
    [w], whatever the answers, and the state they leave. *)
Fixpoint replies {W : Type} (h : env W) (w : W) (cs : list op)
  : list event * W :=
  match cs with
  | [] => ([], w)
  | c :: cs' =>
      let (r, w1) := h c w in
      let (t, w2) := replies h w1 cs' in (EvCall c r :: t, w2)
  end.

(** A trace up to its first failed call, included. *)
Fixpoint until_failure (t : list event) : list event :=
  match t with
  | [] => []
  | e :: t' =>
      match failure e with
      | Some _ => [e]
      | None => e :: until_failure t'
      end
  end.

(** The outcome of calls made in turn: the first exception raised, if any. *)
Definition first_failure (t : list event) : outcome unit :=
  match failures t with
  | [] => Returned tt
  | (_, x) :: _ => Uncaught x
  end.

(** No call follows the first failed call of a trace. *)
Fixpoint stops_at_failure (t : list event) : bool :=
  match t with
  | [] => true
  | e :: t' =>
      match failure e with
      | Some _ => match calls t' with [] => true | _ :: _ => false end
      | None => stops_at_failure t'
      end
  end.

(** ** The helper [check_default_xml] of the admin tests

    [prefix] is the port prefix as ["%s"] prints it; [text] gives the
    content of a file under etc/grid by its name. *)

(** [needle in hay] *)
Definition contains (needle hay : string) : bool :=
  match String.index 0 needle hay with
  | Some _ => true
  | None => false
  end.

(** One iteration of the loop over the transports. *)
Definition endpoint_step (prefix : string) (tcp ssl ws wss : Z)
    (client_endpoint_list : list string) (tp : string) : list string :=
  let l := client_endpoint_list in
  let l := if String.eqb tp "tcp" then append l ("tcp -p " ++ prefix ++ str tcp) else l in
  let l := if String.eqb tp "ssl" then append l ("ssl -p " ++ prefix ++ str ssl) else l in
  let l := if String.eqb tp "ws" then append l ("ws -p " ++ prefix ++ str ws) else l in
  let l := if String.eqb tp "wss" then append l ("wss -p " ++ prefix ++ str wss) else l in
  l.

Definition client_endpoint_list (prefix : string) (tcp ssl ws wss : Z)
    (transports : list string) : list string :=
  fold_left (endpoint_step prefix tcp ssl ws wss) transports [].

Definition default_transports (transports : option (list string)) : list string :=
  match transports with
  | None => ["ssl"; "tcp"]
  | Some l => l
  end.

Definition routerport (prefix : string) (ssl : Z) : string :=
  "<variable name=" ++ dquote ++ "ROUTERPORT" ++ dquote ++ "    value="
    ++ dquote ++ prefix ++ str ssl ++ dquote ++ "/>".

Definition insecure_routerport (prefix : string) (tcp : Z) : string :=
  "<variable name=" ++ dquote ++ "INSECUREROUTER" ++ dquote ++ " value="
    ++ dquote ++ "OMERO.Glacier2/router:tcp -p " ++ prefix ++ str tcp
    ++ " -h @omero.host@" ++ dquote ++ "/>".

Definition client_endpoints (prefix : string) (tcp ssl ws wss : Z)
    (transports : list string) : string :=
  "client-endpoints=" ++ dquote
    ++ join ":" (client_endpoint_list prefix tcp ssl ws wss transports)
    ++ dquote.

(** [true] when no assertion fails. *)
Definition check_default_xml (text : string -> string) (prefix : string)
    (tcp ssl ws wss : Z) (transports : option (list string)) : bool :=
  let transports := default_transports transports in
  forallb (fun key =>
             let s := text key in
             contains (routerport prefix ssl) s
             && contains (insecure_routerport prefix tcp) s
             && contains (client_endpoints prefix tcp ssl ws wss transports) s)
    ["default.xml"; "windefault.xml"].

(** The transports that the helper knows, and the port of each. *)
Definition known_transport (tp : string) : bool :=
  String.eqb tp "tcp" || String.eqb tp "ssl"
  || String.eqb tp "ws" || String.eqb tp "wss".

Definition port_of (tcp ssl ws wss : Z) (tp : string) : Z :=
  if String.eqb tp "tcp" then tcp
  else if String.eqb tp "ssl" then ssl
  else if String.eqb tp "ws" then ws
  else wss.

(** ** An example environment

    A small server and console to run the sub-commands on: the users and
    groups it knows, the session's password, the lines typed at the
    password prompts, and the next free experimenter id. *)

Record World : Type := mkWorld {
  w_users : list Experimenter;
  w_groups : list (string * ExperimenterGroup);
  w_roles : Roles;
  w_password : string;
  w_typed : list string;
  w_next_id : Z
}.

Definition find_user (p : Experimenter -> bool) (w : World)
  : result (Z * string) :=
  match find p (w_users w) with
  | Some u => Ok (id u, omeName (details u))
  | None => Raised (NonZeroReturnCode 1)
  end.

Definition named_group (key : string) (w : World) : option ExperimenterGroup :=
  match find (fun ng => String.eqb (fst ng) key
                        || String.eqb (str (group_id (snd ng))) key)
             (w_groups w) with
  | Some ng => Some (snd ng)
  | None => None
  end.

Definition store_experimenter (e : ExperimenterI) (w : World) : World :=
  {| w_users := append (w_users w)
                  {| id := w_next_id w; details := e; groupExperimenterMap := [] |};
     w_groups := w_groups w;
     w_roles := w_roles w;
     w_password := w_password w;
     w_typed := w_typed w;
     w_next_id := w_next_id w + 1 |}.

(** Rewrites the links of the group with the id of [g]. *)
Definition relink (g : ExperimenterGroup)
    (f : list GroupExperimenterMap -> list GroupExperimenterMap) (w : World)
  : World :=
  {| w_users := w_users w;
     w_groups :=
       map (fun ng =>
              if (group_id (snd ng) =? group_id g)%Z
              then (fst ng, {| group_id := group_id (snd ng);
                               group_loaded := group_loaded (snd ng);
                               group_map := f (group_map (snd ng)) |})
              else ng)
           (w_groups w);
     w_roles := w_roles w;
     w_password := w_password w;
     w_typed := w_typed w;
     w_next_id := w_next_id w |}.

Definition link_users (g : ExperimenterGroup) (uids : list Z) (as_owner : bool)
    (l : list GroupExperimenterMap) : list GroupExperimenterMap :=
  (filter (fun x => negb (mem (child x) uids)) l
   ++ map (fun u => {| parent := group_id g; child := u; owner := as_owner |}) uids)%list.

Definition unlink_users (uids : list Z)
    (l : list GroupExperimenterMap) : list GroupExperimenterMap :=
  filter (fun x => negb (mem (child x) uids)) l.

Definition disown_users (uids : list Z)
    (l : list GroupExperimenterMap) : list GroupExperimenterMap :=
  map (fun x => if mem (child x) uids
                then {| parent := parent x; child := child x; owner := false |}
                else x) l.

Definition server : env World :=
  fun c =>
    match c as c0 return World -> result (resp c0) * World with
    | LookupExperimenters => fun w => (Ok (w_users w), w)
    | LookupExperimenter login => fun w =>
        (match find (fun u => String.eqb (omeName (details u)) login) (w_users w) with
         | Some u => Ok (Some u)
         | None => Raised (ApiUsageException ("No such experimenter: " ++ login))
         end, w)
    | LookupGroup name => fun w =>
        (match named_group name w with
         | Some g => Ok g
         | None => Raised (ApiUsageException ("No such group: " ++ name))
         end, w)
    | GetSecurityRoles => fun w => (Ok (w_roles w), w)
    | CreateExperimenter e _ _ => fun w =>
        (Ok (w_next_id w), store_experimenter e w)
    | CreateExperimenterWithPassword e _ _ _ => fun w =>
        (Ok (w_next_id w), store_experimenter e w)
    | SetSecurityPassword pw => fun w =>
        (if String.eqb pw (w_password w) then Ok tt
         else Raised (SecurityViolation "Bad credentials"), w)
    | ChangePassword pw => fun w =>
        (Ok tt, {| w_users := w_users w; w_groups := w_groups w;
                   w_roles := w_roles w; w_password := pw;
                   w_typed := w_typed w; w_next_id := w_next_id w |})
    | ChangeUserPassword _ _ => fun w => (Ok tt, w)
    | AskForPassword _ _ => fun w =>
        match w_typed w with
        | s :: rest =>
            (Ok s, {| w_users := w_users w; w_groups := w_groups w;
                      w_roles := w_roles w; w_password := w_password w;
                      w_typed := rest; w_next_id := w_next_id w |})
        | [] => (Raised (OtherException "EOFError"), w)
        end
    | FindUserById key _ => fun w =>
        (find_user (fun u => String.eqb (str (id u)) key) w, w)
    | FindUserByName name _ => fun w =>
        (find_user (fun u => String.eqb (omeName (details u)) name) w, w)
    | FindGroup key _ => fun w =>
        (match named_group key w with
         | Some g => Ok (Some (group_id g), Some g)
         | None => Ok (None, None)
         end, w)
    | ErrorNoGroupFound _ => fun w => (Raised (NonZeroReturnCode 1), w)
    | AddUsersById g uids => fun w => (Ok tt, relink g (link_users g uids false) w)
    | AddOwnersById g uids => fun w => (Ok tt, relink g (link_users g uids true) w)
    | RemoveUsersById g uids => fun w => (Ok tt, relink g (unlink_users uids) w)
    | RemoveOwnersById g uids => fun w => (Ok tt, relink g (disown_users uids) w)
    end.

(** The member and owner ids of a group as its links give them. *)
Definition link_userids (g : ExperimenterGroup) : list Z :=
  map child (group_map g).

Definition link_ownerids (g : ExperimenterGroup) : list Z :=
  map child (filter owner (group_map g)).

Definition person (i : Z) (login first last : string) (mail : option string)
    (links : list (option GroupExperimenterMap)) : Experimenter :=
  {| id := i;
     details := {| omeName := login; firstName := first; middleName := None;
                   lastName := last; email := mail; institution := None |};
     groupExperimenterMap := links |}.

Definition link (g u : Z) (o : bool) : GroupExperimenterMap :=
  {| parent := g; child := u; owner := o |}.

(** Groups 0 (system) and 1 (user) and a group [groupA] with id 3, of which
    bob (id 2) is a plain member; root has id 0. *)
Definition world0 (typed : list string) : World :=
  {| w_users :=
       [ person 2 "bob" "Bob" "Builder" (Some "bob@x.com")
           [Some (link 1 2 false); Some (link 3 2 false)];
         person 0 "root" "Root" "User" None
           [Some (link 0 0 true); Some (link 1 0 false)] ];
     w_groups :=
       [ ("system", {| group_id := 0; group_loaded := true;
                       group_map := [link 0 0 true] |});
         ("user", {| group_id := 1; group_loaded := true;
                     group_map := [link 1 0 false; link 1 2 false] |});
         ("groupA", {| group_id := 3; group_loaded := true;
                       group_map := [link 3 2 false] |}) ];
     w_roles := {| userGroupId := 1; systemGroupId := 0 |};
     w_password := "ome";
     w_typed := typed;
     w_next_id := 5 |}.

Definition no_traceback (e : exn) : string := "Traceback (most recent call last)".

Definition never_constraint (message : string) : bool := false.

(** A table as lines of columns. *)
Definition plain_table (header : list string) (rows : list Row) : string :=
  join nl
    (join " | " header
     :: map (fun r =>
               join " | "
                 [str (col_id r); col_omeName r; col_firstName r; col_lastName r;
                  col_email r; col_active r; col_admin r;
                  col_member_of r; col_leader_of r])
          rows).

Definition groupA : ExperimenterGroup :=
  {| group_id := 3; group_loaded := true; group_map := [link 3 2 false] |}.

Definition root : Experimenter :=
  person 0 "root" "Root" "User" None
    [Some (link 0 0 true); Some (link 1 0 false)].

Definition bob : Experimenter :=
  person 2 "bob" "Bob" "Builder" (Some "bob@x.com")
    [Some (link 1 2 false); Some (link 3 2 false)].

(** [add alice Alice Wonderland groupA -P secret] *)
Definition alice : AddArgs :=
  {| arg_username := "alice"; arg_firstname := "Alice";
     arg_lastname := "Wonderland"; arg_member_of := ["groupA"];
     arg_middlename := None; arg_email := None; arg_institution := None;
     arg_userpassword := Some "secret";
     arg_admin := false; arg_ignore_existing := false |}.

(** [add --ignore-existing bob Bob Builder groupA] *)
Definition bob_again : AddArgs :=
  {| arg_username := "bob"; arg_firstname := "Bob";
     arg_lastname := "Builder"; arg_member_of := ["groupA"];
     arg_middlename := None; arg_email := None; arg_institution := None;
     arg_userpassword := None;
     arg_admin := false; arg_ignore_existing := true |}.

(** [add carol Carol Danvers nowhere] *)
Definition carol : AddArgs :=
  {| arg_username := "carol"; arg_firstname := "Carol";
     arg_lastname := "Danvers"; arg_member_of := ["nowhere"];
     arg_middlename := None; arg_email := None; arg_institution := None;
     arg_userpassword := None;
     arg_admin := false; arg_ignore_existing := false |}.

(** [joingroup groupA] by the session's own user. *)
Definition root_groupA : GroupArgs :=
  {| ga_GROUP := ["groupA"]; ga_as_owner := false;
     ga_id := None; ga_name := None |}.

(** [joingroup --name bob groupA], with and without [--as-owner]. *)
Definition bob_groupA (as_owner : bool) : GroupArgs :=
  {| ga_GROUP := ["groupA"]; ga_as_owner := as_owner;
     ga_id := None; ga_name := Some "bob" |}.

(** [add --admin nobody No Body], with no group. *)
Definition nobody : AddArgs :=
  {| arg_username := "nobody"; arg_firstname := "No";
     arg_lastname := "Body"; arg_member_of := [];
     arg_middlename := None; arg_email := None; arg_institution := None;
     arg_userpassword := None;
     arg_admin := true; arg_ignore_existing := false |}.

(** ** Tactics *)

Local Arguments String.append : simpl never.

(** Case analysis on the answers of the environment in an equation
    [R : run h w p = (t, o, w')] of a loop-free program. *)
Ltac answer R h :=
  match type of R with
  | context [h ?c ?w] =>
      let r := fresh "r" in
      let w' := fresh "w" in
      destruct (h c w) as [r w']; destruct r; cbn in R
  end.


Ltac case_exn R :=
  match type of R with
  | context [match ?e with
             | ApiUsageException _ => _
             | ValidationException _ => _
             | SecurityViolation _ => _
             | NonZeroReturnCode _ => _
             | OtherException _ => _
             end] => is_var e; destruct e; cbn in R
  end.

Ltac explore R h :=
  cbn in R; repeat (first [answer R h | case_exn R]);
  inversion R; subst; clear R; cbn in *.

(** Splits a conjunction, closing the conjuncts that [auto] proves. *)
Ltac splits :=
  repeat match goal with
         | |- _ /\ _ => split; [solve [auto]|]
         end.

(** Case analysis on a membership in an explicit list. *)
Ltac in_cases H :=
  match type of H with
  | _ \/ _ => destruct H as [H|H]; [ | in_cases H ]
  | False => contradiction
  | _ => idtac
  end.

(** ** The plugin *)

Section UserControl.

(** [traceback.format_exc] *)
Variable format_exc : exn -> string.

(** [ExceptionHandler.is_constraint_violation] of omero.cli, applied to a
    [ValidationException] with the given message. *)
Variable is_constraint_violation : string -> bool.

(** [UserGroupControl.getuserids] and [getownerids] of omero.cli. *)
Variable getuserids : ExperimenterGroup -> list Z.
Variable getownerids : ExperimenterGroup -> list Z.

(** *** [format_name] *)

Definition format_name (exp : Experimenter) : string :=
  let fn := firstName (details exp) in
  let mn := if_truthy (middleName (details exp)) (fun m => " " ++ m ++ " ") " " in
  let ln := lastName (details exp) in
  EmptyString ++ (fn ++ mn ++ ln).

(** *** [password] *)

(** [own_name] is [ctx._event_context.userName]. *)
Definition password (own_name : string) (args : PasswordArgs) : Prog unit :=
  own_pw <- _ask_for_password (" for your user (" ++ own_name ++ ")") (Some false) ;;
  try_except
    (setSecurityPassword own_pw ;;
     out ("Verified password." ++ nl))
    (fun e => match e with
              | SecurityViolation _ =>
                  Some (@die unit 456 "SecurityViolation: Bad credentials" ;;
                        dbg (format_exc e))
              | _ => None
              end) ;;
  if_truthy (pa_username args)
    (fun u => out ("Changing password for " ++ u))
    (out ("Changing password for " ++ own_name)) ;;
  pw <- _ask_for_password " to be set" None ;;
  if_truthy (pa_username args)
    (fun u => changeUserPassword u pw)
    (changePassword pw) ;;
  out "Password changed".

(** *** [email] *)

(** One iteration of the loop over the experimenters, on the pair
    [(skipped, records)]. *)
Definition email_step (args : EmailArgs)
    (acc : list Experimenter * list string) (exp : Experimenter)
  : list Experimenter * list string :=
  let (skipped, records) := acc in
  if_truthy (email (details exp))
    (fun em =>
       let record := EmptyString in
       let record :=
         if ea_names args
         then (record ++ (dquote ++ format_name exp ++ dquote)) ++ (" <" ++ em ++ ">")
         else record ++ em in
       (skipped, append records record))
    (* users without email *)
    (if negb (ea_ignore args) then (append skipped exp, records)
     else (skipped, records)).

(** [email]; the name without the underscore is the field above. *)
Definition email_ (args : EmailArgs) : Prog unit :=
  users <- lookupExperimenters ;;
  let (skipped, records) := fold_left (email_step args) users ([], []) in
  (if ea_one args
   then for_each records out
   else out (join ", " records)) ;;
  match skipped with
  | [] => Ret tt
  | _ :: _ =>
      err "Missing email addresses:" ;;
      for_each skipped (fun s => err (format_name s))
  end.

(** *** [list] *)

(** [TableBuilder(header...)], [tb.row] for every row and [str(tb.build())]. *)
Variable TableBuilder : list string -> list Row -> string.

(** [users.sort(lambda a,b: cmp(a.id.val, b.id.val))]: a stable sort. *)
Fixpoint insert_by_id (u : Experimenter) (l : list Experimenter)
  : list Experimenter :=
  match l with
  | [] => [u]
  | v :: l' => if (id u <=? id v)%Z then u :: l else v :: insert_by_id u l'
  end.

Fixpoint sort_by_id (l : list Experimenter) : list Experimenter :=
  match l with
  | [] => []
  | u :: l' => insert_by_id u (sort_by_id l')
  end.

(** The four variables the inner loop assigns. *)
Record Flags : Type := mkFlags {
  active : string;
  admin : string;
  member_of : list string;
  leader_of : list string
}.

Definition classify (user_group sys_group : Z) (f : Flags)
    (x : option GroupExperimenterMap) : Flags :=
  match x with
  | None => f
  | Some x =>
      let gid := parent x in
      if (user_group =? gid)%Z then
        {| active := "Yes"; admin := admin f;
           member_of := member_of f; leader_of := leader_of f |}
      else if (sys_group =? gid)%Z then
        {| active := active f; admin := "Yes";
           member_of := member_of f; leader_of := leader_of f |}
      else if owner x then
        {| active := active f; admin := admin f;
           member_of := member_of f; leader_of := append (leader_of f) (str gid) |}
      else
        {| active := active f; admin := admin f;
           member_of := append (member_of f) (str gid); leader_of := leader_of f |}
  end.

Definition flags_of (user_group sys_group : Z) (user : Experimenter) : Flags :=
  fold_left (classify user_group sys_group) (groupExperimenterMap user)
    {| active := EmptyString; admin := EmptyString;
       member_of := []; leader_of := [] |}.

Definition column (l : list string) : string :=
  match l with
  | [] => EmptyString
  | _ :: _ => join "," l
  end.

Definition row_of (user_group sys_group : Z) (user : Experimenter) : Row :=
  let f := flags_of user_group sys_group user in
  {| col_id := id user;
     col_omeName := omeName (details user);
     col_firstName := firstName (details user);
     col_lastName := lastName (details user);
     col_email := if_truthy (email (details user)) (fun em => em) EmptyString;
     col_active := active f;
     col_admin := admin f;
     col_member_of := column (member_of f);
     col_leader_of := column (leader_of f) |}.

Definition list_rows (roles : Roles) (users : list Experimenter) : list Row :=
  map (row_of (userGroupId roles) (systemGroupId roles)) (sort_by_id users).

Definition header : list string :=
  ["id"; "omeName"; "firstName"; "lastName"; "email";
   "active"; "admin"; "member of"; "leader of"].

(** [list]; the name without the underscore is the type of lists. *)
Definition list_ : Prog unit :=
  users <- lookupExperimenters ;;
  roles <- getSecurityRoles ;;
  out (TableBuilder header (list_rows roles users)).

(** *** [add] *)

(** The experimenter that [add] fills in from its arguments. *)
Definition Exp (args : AddArgs) : ExperimenterI :=
  {| omeName := arg_username args;
     firstName := arg_firstname args;
     lastName := arg_lastname args;
     middleName := rstring (arg_middlename args);
     email := rstring (arg_email args);
     institution := rstring (arg_institution args) |}.

Definition add (args : AddArgs) : Prog unit :=
  let login := arg_username args in
  let pasw := arg_userpassword args in
  let e := Exp args in
  (* the first [try]; the result is [true] when it ends in [return] *)
  returned <-
    try_except
      (usr <- lookupExperimenter login ;;
       match usr with
       | Some usr =>
           if arg_ignore_existing args
           then out ("User exists: " ++ login ++ " (id=" ++ str (id usr) ++ ")") ;;
                Ret true
           else die 3 ("User exists: " ++ login ++ " (id=" ++ str (id usr) ++ ")")
       | None => Ret false
       end)
      (fun aue => if is_api_usage aue then Some (Ret false) else None) ;;
  if returned : bool then Ret tt else
  groups <-
    try_except
      (comprehension (arg_member_of args) lookupGroup)
      (fun aue => if is_api_usage aue
                  then Some (die 68 (message_of aue))
                  else None) ;;
  roles <- getSecurityRoles ;;
  let groups := append groups (Grp (userGroupId roles) false) in
  let groups := if arg_admin args
                then append groups (Grp (systemGroupId roles) false)
                else groups in
  match groups with
  | [] => Throw (OtherException "IndexError: pop from empty list")
  | group :: groups =>
      try_except
        (match pasw with
         | None =>
             i <- createExperimenter e group groups ;;
             out ("Added user " ++ str i)
         | Some pasw =>
             i <- createExperimenterWithPassword e pasw group groups ;;
             out ("Added user " ++ str i ++ " with password")
         end)
        (fun x => match x with
                  | ValidationException message =>
                      Some (if is_constraint_violation message
                            then die 66 ("User already exists: " ++ login)
                            else die 67 ("Unknown ValidationException: " ++ message))
                  | SecurityViolation message =>
                      Some (die 68 ("Security violation: " ++ message))
                  | _ => None
                  end)
  end.

(** *** [joingroup] and [leavegroup] *)

Definition parse_userid (own_name : string) (args : GroupArgs) : Prog (Z * string) :=
  if_truthy (ga_id args)
    (fun user => find_user_by_id user true)
    (if_truthy (ga_name args)
       (fun user => find_user_by_name user true)
       (find_user_by_name own_name true)).

Fixpoint list_groups_loop (groups : list string)
    (group_list : list ExperimenterGroup) : Prog (list ExperimenterGroup) :=
  match groups with
  | [] => Ret group_list
  | group :: groups' =>
      r <- find_group group false ;;
      match snd r with
      | Some g => list_groups_loop groups' (append group_list g)
      | None => list_groups_loop groups' group_list
      end
  end.

Definition list_groups (groups : list string) : Prog (list ExperimenterGroup) :=
  group_list <- list_groups_loop groups [] ;;
  match group_list with
  | [] => error_no_group_found true
  | _ :: _ => Ret tt
  end ;;
  Ret group_list.

(** The loop of [filter_groups] runs over a copy [pending] of the list and
    removes from [groups] itself. *)
Fixpoint filter_groups_loop (pending groups : list ExperimenterGroup)
    (uid : Z) (owner join : bool) : Prog (list ExperimenterGroup) :=
  match pending with
  | [] => Ret groups
  | group :: pending' =>
      let (uid_list, relation) :=
        if owner then (getownerids group, "owner of")
        else (getuserids group, "in") in
      if join then
        if mem uid uid_list then
          out (str uid ++ " is already " ++ relation ++ " group "
                 ++ str (group_id group)) ;;
          filter_groups_loop pending' (remove_first group groups) uid owner join
        else filter_groups_loop pending' groups uid owner join
      else
        if negb (mem uid uid_list) then
          out (str uid ++ " is not " ++ relation ++ " group "
                 ++ str (group_id group)) ;;
          filter_groups_loop pending' (remove_first group groups) uid owner join
        else filter_groups_loop pending' groups uid owner join
  end.

Definition filter_groups (groups : list ExperimenterGroup) (uid : Z)
    (owner join : bool) : Prog (list ExperimenterGroup) :=
  filter_groups_loop groups groups uid owner join.

Definition joingroup (own_name : string) (args : GroupArgs) : Prog unit :=
  user <- parse_userid own_name args ;;
  let uid := fst user in
  groups <- list_groups (ga_GROUP args) ;;
  groups <- filter_groups groups uid (ga_as_owner args) true ;;
  for_each groups (fun group =>
    if ga_as_owner args
    then addownersbyid group [uid]
    else addusersbyid group [uid]).

Definition leavegroup (own_name : string) (args : GroupArgs) : Prog unit :=
  user <- parse_userid own_name args ;;
  let uid := fst user in
  groups <- list_groups (ga_GROUP args) ;;
  groups <- filter_groups groups uid (ga_as_owner args) false ;;
  for_each groups (fun group =>
    if ga_as_owner args
    then removeownersbyid group [uid]
    else removeusersbyid group [uid]).

(** ** The relation that [joingroup] and [leavegroup] test *)

(** The id list that [filter_groups] consults. *)
Definition relation_ids (owner : bool) (group : ExperimenterGroup) : list Z :=
  if owner then getownerids group else getuserids group.

(** [filter_groups] drops a group when the change would do nothing. *)
Definition is_noop (join owner : bool) (uid : Z) (group : ExperimenterGroup)
  : bool :=
  if join then mem uid (relation_ids owner group)
  else negb (mem uid (relation_ids owner group)).

Definition noop_message (join owner : bool) (uid : Z)
    (group : ExperimenterGroup) : string :=
  str uid ++ (if join then " is already " else " is not ")
    ++ (if owner then "owner of" else "in")
    ++ " group " ++ str (group_id group).

Definition membership_call (join owner : bool) (uid : Z)
    (group : ExperimenterGroup) : op :=
  match join, owner with
  | true, true => AddOwnersById group [uid]
  | true, false => AddUsersById group [uid]
  | false, true => RemoveOwnersById group [uid]
  | false, false => RemoveUsersById group [uid]
  end.

(** ** The traces of [add] *)

(** The trace and outcome of the list comprehension over [member_of]. *)
Inductive lookups : list string -> list event ->
                    outcome (list ExperimenterGroup) -> Prop :=
| lookups_nil :
    lookups [] [] (Returned [])
| lookups_resolved : forall name names g t gs,
    lookups names t (Returned gs) ->
    lookups (name :: names) (EvCall (LookupGroup name) (Ok g) :: t)
      (Returned (g :: gs))
| lookups_later : forall name names g t x,
    lookups names t (Uncaught x) ->
    lookups (name :: names) (EvCall (LookupGroup name) (Ok g) :: t) (Uncaught x)
| lookups_unresolved : forall name names x,
    lookups (name :: names) [EvCall (LookupGroup name) (Raised x)] (Uncaught x).

(** The group list handed to the creation call, before [pop(0)]. *)
Definition membership (args : AddArgs) (roles : Roles)
    (resolved : list ExperimenterGroup) : list ExperimenterGroup :=
  let groups := append resolved (Grp (userGroupId roles) false) in
  if arg_admin args
  then append groups (Grp (systemGroupId roles) false)
  else groups.

Definition creation (args : AddArgs)
    (primary : ExperimenterGroup) (secondary : list ExperimenterGroup) : op :=
  match arg_userpassword args with
  | None => CreateExperimenter (Exp args) primary secondary
  | Some pasw => CreateExperimenterWithPassword (Exp args) pasw primary secondary
  end.

Definition creation_event (args : AddArgs)
    (primary : ExperimenterGroup) (secondary : list ExperimenterGroup)
    (r : result Z) : event :=
  match arg_userpassword args with
  | None => EvCall (CreateExperimenter (Exp args) primary secondary) r
  | Some pasw =>
      EvCall (CreateExperimenterWithPassword (Exp args) pasw primary secondary) r
  end.

(** The answer of the environment to the creation call. *)
Definition creation_reply {W : Type} (h : env W) (w : W) (args : AddArgs)
    (primary : ExperimenterGroup) (secondary : list ExperimenterGroup)
  : result Z * W :=
  match arg_userpassword args with
  | None => h (CreateExperimenter (Exp args) primary secondary) w
  | Some pasw =>
      h (CreateExperimenterWithPassword (Exp args) pasw primary secondary) w
  end.

Definition added_message (args : AddArgs) (i : Z) : string :=
  match arg_userpassword args with
  | None => "Added user " ++ str i
  | Some _ => "Added user " ++ str i ++ " with password"
  end.

Definition exists_message (args : AddArgs) (usr : Experimenter) : string :=
  "User exists: " ++ arg_username args ++ " (id=" ++ str (id usr) ++ ")".

(** What follows a creation call that raised [x]. *)
Definition creation_failed (args : AddArgs) (x : exn)
  : list event * outcome unit :=
  match x with
  | ValidationException message =>
      if is_constraint_violation message
      then ([EvErr ("User already exists: " ++ arg_username args)],
            Uncaught (NonZeroReturnCode 66))
      else ([EvErr ("Unknown ValidationException: " ++ message)],
            Uncaught (NonZeroReturnCode 67))
  | SecurityViolation message =>
      ([EvErr ("Security violation: " ++ message)],
       Uncaught (NonZeroReturnCode 68))
  | _ => ([], Uncaught x)
  end.

(** [add] once the login is known to be free. *)
Inductive add_new (args : AddArgs) : list event -> outcome unit -> Prop :=
| add_unresolved : forall tg x,
    lookups (arg_member_of args) tg (Uncaught x) ->
    is_api_usage x = true ->
    add_new args (tg ++ [EvErr (message_of x)])%list
      (Uncaught (NonZeroReturnCode 68))
| add_lookup_raised : forall tg x,
    lookups (arg_member_of args) tg (Uncaught x) ->
    is_api_usage x = false ->
    add_new args tg (Uncaught x)
| add_roles_raised : forall tg gs x,
    lookups (arg_member_of args) tg (Returned gs) ->
    add_new args (tg ++ [EvCall GetSecurityRoles (Raised x)])%list (Uncaught x)
| add_created : forall tg gs roles primary secondary i,
    lookups (arg_member_of args) tg (Returned gs) ->
    membership args roles gs = primary :: secondary ->
    add_new args
      (tg ++ [EvCall GetSecurityRoles (Ok roles);
              creation_event args primary secondary (Ok i);
              EvOut (added_message args i)])%list
      (Returned tt)
| add_rejected : forall tg gs roles primary secondary x,
    lookups (arg_member_of args) tg (Returned gs) ->
    membership args roles gs = primary :: secondary ->
    add_new args
      (tg ++ [EvCall GetSecurityRoles (Ok roles);
              creation_event args primary secondary (Raised x)]
          ++ fst (creation_failed args x))%list
      (snd (creation_failed args x)).

Inductive add_trace (args : AddArgs) : list event -> outcome unit -> Prop :=
| add_exists_ignored : forall usr,
    arg_ignore_existing args = true ->
    add_trace args
      [EvCall (LookupExperimenter (arg_username args)) (Ok (Some usr));
       EvOut (exists_message args usr)]
      (Returned tt)
| add_exists_fatal : forall usr,
    arg_ignore_existing args = false ->
    add_trace args
      [EvCall (LookupExperimenter (arg_username args)) (Ok (Some usr));
       EvErr (exists_message args usr)]
      (Uncaught (NonZeroReturnCode 3))
| add_check_raised : forall x,
    is_api_usage x = false ->
    add_trace args
      [EvCall (LookupExperimenter (arg_username args)) (Raised x)]
      (Uncaught x)
| add_absent_none : forall t o,
    add_new args t o ->
    add_trace args
      (EvCall (LookupExperimenter (arg_username args)) (Ok None) :: t) o
| add_absent_raised : forall x t o,
    is_api_usage x = true ->
    add_new args t o ->
    add_trace args
      (EvCall (LookupExperimenter (arg_username args)) (Raised x) :: t) o.

(** ** The vocabulary of the properties *)

Definition has_email (u : Experimenter) : bool := truthy (email (details u)).

Definition email_of (u : Experimenter) : string :=
  match email (details u) with
  | Some em => em
  | None => EmptyString
  end.

(** The entry of a user in the value output of [email]. *)
Definition email_entry (args : EmailArgs) (u : Experimenter) : string :=
  if ea_names args
  then (dquote ++ format_name u ++ dquote) ++ (" <" ++ email_of u ++ ">")
  else email_of u.

(** The column a link of a user is counted in. *)
Inductive Column : Type := Active | Admin | LeaderOf | MemberOf.

Definition column_of (user_group sys_group : Z) (x : GroupExperimenterMap)
  : Column :=
  if (user_group =? parent x)%Z then Active
  else if (sys_group =? parent x)%Z then Admin
  else if owner x then LeaderOf
  else MemberOf.

Definition same_column (a b : Column) : bool :=
  match a, b with
  | Active, Active | Admin, Admin | LeaderOf, LeaderOf | MemberOf, MemberOf => true
  | _, _ => false
  end.

(** The links of a user that are not null. *)
Definition links_of (user : Experimenter) : list GroupExperimenterMap :=
  flat_map (fun x => match x with Some l => [l] | None => [] end)
    (groupExperimenterMap user).

(** The ids of the groups of a user that fall in a column, in link order. *)
Definition groups_in (k : Column) (user_group sys_group : Z)
    (links : list GroupExperimenterMap) : list Z :=
  map parent
    (filter (fun x => same_column (column_of user_group sys_group x) k) links).

Definition yes_if (b : bool) (otherwise : string) : string :=
  if b then "Yes" else otherwise.

Fixpoint comma_free (s : string) : bool :=
  match s with
  | EmptyString => true
  | String a s' => negb (Ascii.eqb a ",") && comma_free s'
  end.

(** [s.split(",")] *)
Fixpoint split_commas (s : string) : list string :=
  match s with
  | EmptyString => [EmptyString]
  | String a s' =>
      if Ascii.eqb a ","
      then EmptyString :: split_commas s'
      else match split_commas s' with
           | tok :: rest => String a tok :: rest
           | [] => [String a EmptyString]
           end
  end.

(** The entries of a comma-joined column. *)
Definition column_entries (s : string) : list string := split_commas s.

Definition by_id (a b : Experimenter) : Prop := (id a <= id b)%Z.

(** The call by which [parse_userid] resolves the user. *)
Definition userid_call (own_name : string) (args : GroupArgs) : op :=
  if_truthy (ga_id args)
    (fun user => FindUserById user true)
    (if_truthy (ga_name args)
       (fun user => FindUserByName user true)
       (FindUserByName own_name true)).

(** The requests by which a group command resolves its user and its groups,
    as the environment answers them from the state [w]. *)
Definition resolution {W : Type} (h : env W) (w : W)
    (own_name : string) (args : GroupArgs) : list event * W :=
  replies h w (userid_call own_name args
               :: map (fun group => FindGroup group false) (ga_GROUP args)).

(** The answer of [lookupExperimenter] that [add] takes for a free login:
    no user, or an [ApiUsageException]. *)
Definition no_such_user (r : result (option Experimenter)) : bool :=
  match r with
  | Ok None => true
  | Ok (Some _) => false
  | Raised x => is_api_usage x
  end.

(** [joingroup] or [leavegroup], by the direction of the change. *)
Definition group_command (join : bool) (own_name : string) (args : GroupArgs)
  : Prog unit :=
  if join then joingroup own_name args else leavegroup own_name args.

(** What the resolution steps of a group command leave in the trace: no
    output, no membership call, and failures of resolution steps only. *)
Definition resolving (t : list event) : Prop :=
  outs t = []
  /\ filter is_mutation (calls t) = []
  /\ (forall c x, In (c, x) (failures t) -> is_mutation c = false).

(** The shape of an invocation of [joingroup] ([j = true]) or [leavegroup]
    ([j = false]): either a resolution step raised and nothing else
    happened, or the user and the groups were resolved, the no-op groups
    were reported, and the remaining groups received their membership call
    one after the other until one raised. *)
Definition group_trace (j : bool) (args : GroupArgs) (t : list event) : Prop :=
  (outs t = [] /\ filter is_mutation (calls t) = []
   /\ exists c x, In (c, x) (failures t) /\ is_mutation c = false)
  \/ (exists user groups done rest,
        let uid := fst user in
        let o := ga_as_owner args in
        collect resolved_user t = [user]
        /\ collect found_group t = groups
        /\ (List.length groups <= List.length (ga_GROUP args))%nat
        /\ outs t = map (noop_message j o uid) (filter (is_noop j o uid) groups)
        /\ filter (fun g => negb (is_noop j o uid g)) groups = (done ++ rest)%list
        /\ filter is_mutation (calls t) = map (membership_call j o uid) done
        /\ (failures t = [] -> rest = [])
        /\ (forall c x, In (c, x) (failures t) -> is_mutation c = true)).

(** ** Properties *)

(** *** Running sequences, handlers and loops *)

Lemma run_bind :
  forall (W A B : Type) (h : env W) (p : Prog A) (f : A -> Prog B) (w : W),
    run h w (bind p f) =
      match run h w p with
      | (t1, Returned a, w1) =>
          let '(t2, o2, w2) := run h w1 (f a) in ((t1 ++ t2)%list, o2, w2)
      | (t1, Uncaught e, w1) => (t1, Uncaught e, w1)
      end.
Proof.
  intros W A B h p f. induction p as [a|e|s k IH|s k IH|s k IH|c k IH]; intros w; cbn.
  - destruct (run h w (f a)) as [[t o] w']. reflexivity.
  - reflexivity.
  - rewrite IH. destruct (run h w k) as [[t [a|e]] w1]; cbn; trivial.
    destruct (run h w1 (f a)) as [[t2 o2] w2]. reflexivity.
  - rewrite IH. destruct (run h w k) as [[t [a|e]] w1]; cbn; trivial.
    destruct (run h w1 (f a)) as [[t2 o2] w2]. reflexivity.
  - rewrite IH. destruct (run h w k) as [[t [a|e]] w1]; cbn; trivial.
    destruct (run h w1 (f a)) as [[t2 o2] w2]. reflexivity.
  - destruct (h c w) as [r w1]. rewrite IH.
    destruct (run h w1 (k r)) as [[t [a|e]] w2]; cbn; trivial.
    destruct (run h w2 (f a)) as [[t2 o2] w3]. reflexivity.
Qed.

Lemma run_try_except :
  forall (W A : Type) (h : env W) (p : Prog A) (handler : exn -> option (Prog A))
         (w : W),
    run h w (try_except p handler) =
      match run h w p with
      | (t1, Returned a, w1) => (t1, Returned a, w1)
      | (t1, Uncaught e, w1) =>
          match handler e with
          | Some q => let '(t2, o2, w2) := run h w1 q in ((t1 ++ t2)%list, o2, w2)
          | None => (t1, Uncaught e, w1)
          end
      end.
Proof.
  intros W A h p handler. induction p as [a|e|s k IH|s k IH|s k IH|c k IH]; intros w; cbn.
  - reflexivity.
  - destruct (handler e) as [q|]; trivial.
    destruct (run h w q) as [[t o] w']. reflexivity.
  - rewrite IH. destruct (run h w k) as [[t [a|e]] w1]; cbn; trivial.
    destruct (handler e) as [q|]; trivial.
    destruct (run h w1 q) as [[t2 o2] w2]. reflexivity.
  - rewrite IH. destruct (run h w k) as [[t [a|e]] w1]; cbn; trivial.
    destruct (handler e) as [q|]; trivial.
    destruct (run h w1 q) as [[t2 o2] w2]. reflexivity.
  - rewrite IH. destruct (run h w k) as [[t [a|e]] w1]; cbn; trivial.
    destruct (handler e) as [q|]; trivial.
    destruct (run h w1 q) as [[t2 o2] w2]. reflexivity.
  - destruct (h c w) as [r w1]. rewrite IH.
    destruct (run h w1 (k r)) as [[t [a|e]] w2]; cbn; trivial.
    destruct (handler e) as [q|]; trivial.
    destruct (run h w2 q) as [[t2 o2] w3]. reflexivity.
Qed.

Lemma calls_app :
  forall t1 t2 : list event, calls (t1 ++ t2)%list = (calls t1 ++ calls t2)%list.
Proof. intros. apply flat_map_app. Qed.

Lemma outs_app :
  forall t1 t2 : list event, outs (t1 ++ t2)%list = (outs t1 ++ outs t2)%list.
Proof. intros. apply flat_map_app. Qed.

Lemma errs_app :
  forall t1 t2 : list event, errs (t1 ++ t2)%list = (errs t1 ++ errs t2)%list.
Proof. intros. apply flat_map_app. Qed.

Lemma failures_app :
  forall t1 t2 : list event,
    failures (t1 ++ t2)%list = (failures t1 ++ failures t2)%list.
Proof. intros. apply flat_map_app. Qed.

Lemma successes_app :
  forall t1 t2 : list event,
    successes (t1 ++ t2)%list = (successes t1 ++ successes t2)%list.
Proof. intros. apply flat_map_app. Qed.

Lemma collect_app :
  forall (A : Type) (f : event -> option A) (t1 t2 : list event),
    collect f (t1 ++ t2)%list = (collect f t1 ++ collect f t2)%list.
Proof. intros. apply flat_map_app. Qed.

Lemma calls_call :
  forall c r t, calls (EvCall c r :: t) = c :: calls t.
Proof. reflexivity. Qed.

Lemma outs_call :
  forall c r t, outs (EvCall c r :: t) = outs t.
Proof. reflexivity. Qed.

Lemma errs_call :
  forall c r t, errs (EvCall c r :: t) = errs t.
Proof. reflexivity. Qed.

Lemma collect_skip :
  forall (A : Type) (f : event -> option A) e t,
    f e = None -> collect f (e :: t) = collect f t.
Proof. intros A f e t H. unfold collect. cbn. now rewrite H. Qed.

Lemma calls_map_EvOut : forall l, calls (map EvOut l) = [].
Proof. induction l as [|s l IH]; [reflexivity|exact IH]. Qed.

Lemma calls_map_EvErr : forall l, calls (map EvErr l) = [].
Proof. induction l as [|s l IH]; [reflexivity|exact IH]. Qed.

Lemma failures_map_EvOut : forall l, failures (map EvOut l) = [].
Proof. induction l as [|s l IH]; [reflexivity|exact IH]. Qed.

(** *** The answers of the environment *)

Lemma replies_app :
  forall (W : Type) (h : env W) cs1 cs2 (w : W),
    replies h w (cs1 ++ cs2)%list
    = let (t1, w1) := replies h w cs1 in
      let (t2, w2) := replies h w1 cs2 in ((t1 ++ t2)%list, w2).
Proof.
  intros W h cs1 cs2. induction cs1 as [|c cs1 IH]; intros w; cbn.
  - destruct (replies h w cs2). reflexivity.
  - destruct (h c w) as [r w1]. rewrite IH.
    destruct (replies h w1 cs1) as [t1 w2].
    destruct (replies h w2 cs2). reflexivity.
Qed.

Lemma replies_cons :
  forall (W : Type) (h : env W) c cs (w : W),
    replies h w (c :: cs)
    = let (r, w1) := h c w in
      let (t, w2) := replies h w1 cs in (EvCall c r :: t, w2).
Proof. reflexivity. Qed.

Lemma calls_replies :
  forall (W : Type) (h : env W) cs (w : W), calls (fst (replies h w cs)) = cs.
Proof.
  intros W h cs. induction cs as [|c cs IH]; intros w; [reflexivity|].
  rewrite replies_cons. destruct (h c w) as [r w1]. specialize (IH w1).
  destruct (replies h w1 cs) as [t w2]. cbn [fst] in *.
  now rewrite calls_call, IH.
Qed.

Lemma outs_replies :
  forall (W : Type) (h : env W) cs (w : W), outs (fst (replies h w cs)) = [].
Proof.
  intros W h cs. induction cs as [|c cs IH]; intros w; [reflexivity|].
  rewrite replies_cons. destruct (h c w) as [r w1]. specialize (IH w1).
  destruct (replies h w1 cs) as [t w2]. cbn [fst] in *.
  now rewrite outs_call.
Qed.

Lemma errs_replies :
  forall (W : Type) (h : env W) cs (w : W), errs (fst (replies h w cs)) = [].
Proof.
  intros W h cs. induction cs as [|c cs IH]; intros w; [reflexivity|].
  rewrite replies_cons. destruct (h c w) as [r w1]. specialize (IH w1).
  destruct (replies h w1 cs) as [t w2]. exact IH.
Qed.

Lemma collect_replies :
  forall (A : Type) (f : event -> option A) (W : Type) (h : env W) cs (w : W),
    (forall c r, In c cs -> f (EvCall c r) = None) ->
    collect f (fst (replies h w cs)) = [].
Proof.
  intros A f W h cs. induction cs as [|c cs IH]; intros w H; [reflexivity|].
  rewrite replies_cons. destruct (h c w) as [r w1].
  specialize (IH w1 (fun c' r' K => H c' r' (or_intror K))).
  destruct (replies h w1 cs) as [t w2]. cbn [fst] in *.
  rewrite collect_skip; [exact IH|]. apply H. now left.
Qed.

Lemma failures_cons :
  forall e t,
    failures (e :: t)
    = (match failure e with Some f => [f] | None => [] end ++ failures t)%list.
Proof. reflexivity. Qed.

Lemma failures_calls :
  forall t c x, In (c, x) (failures t) -> In c (calls t).
Proof.
  intros t c x. induction t as [|e t IH]; [intros []|].
  rewrite failures_cons. intros H. apply in_app_or in H.
  destruct H as [H|H].
  - destruct e as [s|s|s|c' [v|x']]; cbn in H; try contradiction.
    destruct H as [H|[]]. inversion H; subst. now left.
  - destruct e as [s|s|s|c' r]; cbn; auto.
Qed.

Lemma until_failure_calls :
  forall t c, In c (calls (until_failure t)) -> In c (calls t).
Proof.
  induction t as [|e t IH]; [intros c []|]. intros c. cbn [until_failure].
  destruct (failure e).
  - destruct e as [s|s|s|c' r]; cbn; try contradiction.
    intros [H|[]]. now left.
  - destruct e as [s|s|s|c' r]; cbn; auto.
    intros [H|H]; auto.
Qed.

Lemma until_failure_reaches :
  forall t c,
    In c (calls t) ->
    In c (calls (until_failure t)) \/ failures (until_failure t) <> [].
Proof.
  induction t as [|e t IH]; [intros c []|]. intros c H. cbn [until_failure].
  destruct (failure e) as [f|] eqn:F.
  - right. rewrite failures_cons, F. discriminate.
  - rewrite failures_cons, F. cbn [app].
    destruct e as [s|s|s|c' r]; cbn in H |- *; auto.
    destruct H as [H|H]; auto. destruct (IH c H); auto.
Qed.

Lemma first_failure_until :
  forall t, first_failure (until_failure t) = first_failure t.
Proof.
  induction t as [|e t IH]; [reflexivity|]. unfold first_failure in *.
  cbn [until_failure]. destruct (failure e) as [[c x]|] eqn:F.
  - rewrite !failures_cons, F. reflexivity.
  - rewrite !failures_cons, F. exact IH.
Qed.

Lemma stops_clean :
  forall t, failures t = [] -> stops_at_failure t = true.
Proof.
  induction t as [|e t IH]; [reflexivity|].
  rewrite failures_cons. cbn [stops_at_failure].
  destruct (failure e); [discriminate|]. exact IH.
Qed.

Lemma stops_app_clean :
  forall t1 t2,
    failures t1 = [] ->
    stops_at_failure (t1 ++ t2)%list = stops_at_failure t2.
Proof.
  induction t1 as [|e t1 IH]; intros t2; [reflexivity|].
  rewrite failures_cons. cbn [stops_at_failure app].
  destruct (failure e); [discriminate|]. apply IH.
Qed.

Lemma stops_app_silent :
  forall t1 t2,
    stops_at_failure t1 = true -> calls t2 = [] ->
    stops_at_failure (t1 ++ t2)%list = true.
Proof.
  induction t1 as [|e t1 IH]; intros t2 H C.
  - apply stops_clean. clear H. induction t2 as [|e t2 IH]; [reflexivity|].
    destruct e as [s|s|s|c r]; try discriminate C; apply IH; exact C.
  - cbn [stops_at_failure app] in *. destruct (failure e).
    + rewrite calls_app, C, app_nil_r. exact H.
    + now apply IH.
Qed.

Lemma stops_until_failure :
  forall t, stops_at_failure (until_failure t) = true.
Proof.
  induction t as [|e t IH]; [reflexivity|]. cbn [until_failure].
  destruct (failure e) eqn:F; cbn [stops_at_failure]; rewrite F.
  - reflexivity.
  - exact IH.
Qed.

(** *** Programs that stop at the first call that raises *)

(** In every environment no call follows the first failed call of [p], and
    [p] returns only when no call has failed. *)
Definition halting {A : Type} (p : Prog A) : Prop :=
  forall (W : Type) (h : env W) (w : W),
    stops_at_failure (trace h w p) = true
    /\ (forall a, outcome_of h w p = Returned a -> failures (trace h w p) = []).

Lemma halting_ret : forall (A : Type) (a : A), halting (Ret a).
Proof. intros A a W h w. split; reflexivity. Qed.

Lemma halting_call : forall c, halting (call c).
Proof.
  intros c W h w. unfold trace, outcome_of, call. cbn [run].
  destruct (h c w) as [[v|x] w1]; cbn; split; auto; discriminate.
Qed.

Lemma halting_bind :
  forall (A B : Type) (p : Prog A) (f : A -> Prog B),
    halting p -> (forall a, halting (f a)) -> halting (bind p f).
Proof.
  intros A B p f Hp Hf W h w. specialize (Hp W h w). unfold trace, outcome_of in *.
  rewrite run_bind. destruct (run h w p) as [[t1 [a|e]] w1]; cbn [fst snd] in *.
  - destruct Hp as [_ Fp]. specialize (Fp a eq_refl).
    specialize (Hf a W h w1). unfold trace, outcome_of in Hf.
    destruct (run h w1 (f a)) as [[t2 o2] w2]. cbn [fst snd] in *.
    destruct Hf as [S2 F2]. split.
    + now rewrite stops_app_clean.
    + intros b Hb. rewrite failures_app, Fp, (F2 b Hb). reflexivity.
  - destruct Hp as [Sp _]. split; [exact Sp|discriminate].
Qed.

Lemma halting_for_each :
  forall (A : Type) (xs : list A) (body : A -> Prog unit),
    (forall x, halting (body x)) -> halting (for_each xs body).
Proof.
  intros A xs body Hb. induction xs as [|x xs IH]; cbn [for_each].
  - apply halting_ret.
  - apply halting_bind; [apply Hb|]. intros _. exact IH.
Qed.

(** *** [add] *)

Lemma run_lookups :
  forall (W : Type) (h : env W) (names : list string) (w w' : W) t o,
    run h w (comprehension names lookupGroup) = (t, o, w') ->
    lookups names t o.
Proof.
  intros W h names. induction names as [|name names IH]; intros w w' t o R.
  - cbn in R. inversion R. constructor.
  - cbn in R. destruct (h (LookupGroup name) w) as [[g|x] w1]; cbn in R.
    + rewrite run_bind in R.
      destruct (run h w1 (comprehension names lookupGroup)) as [[t1 o1] w2] eqn:R1.
      apply IH in R1. destruct o1 as [gs|x]; cbn in R; inversion R; subst.
      * rewrite app_nil_r. now constructor.
      * now constructor.
    + inversion R. constructor.
Qed.

Lemma membership_nonempty :
  forall args roles gs, membership args roles gs <> [].
Proof.
  intros args roles gs. unfold membership, append.
  destruct (arg_admin args); intros H; apply app_eq_nil in H;
    destruct H as [_ H]; discriminate H.
Qed.

Lemma run_add :
  forall (W : Type) (h : env W) (w w' : W) (args : AddArgs) t o,
    run h w (add args) = (t, o, w') -> add_trace args t o.
Proof.
  intros W h w w' args t o R. unfold add in R.
  unfold lookupExperimenter, getSecurityRoles, createExperimenter,
    createExperimenterWithPassword, out, die, call in R. cbn in R.
  destruct (h (LookupExperimenter (arg_username args)) w) as [[[usr|]|x0] w1];
    cbn in R.
  1: { destruct (arg_ignore_existing args) eqn:I; cbn in R; inversion R; subst;
         now constructor. }
  2: destruct (is_api_usage x0) eqn:Hx; cbn in R;
       [ | inversion R; subst; now constructor ].
  all: match type of R with
       | context [run ?h ?w1 ?p] =>
           destruct (run h w1 p) as [[t1 o1] w2] eqn:R1
       end; inversion R; subst; constructor; try assumption; clear R.
  all: rewrite run_bind, run_try_except in R1;
       match type of R1 with
       | context [run ?h ?w1 (comprehension ?l ?f)] =>
           destruct (run h w1 (comprehension l f)) as [[tg og] wg] eqn:RG
       end;
       apply run_lookups in RG; destruct og as [gs|x].
  all: try (destruct (is_api_usage x) eqn:Hy; cbn in R1; inversion R1; subst;
            first [ now apply add_unresolved
                  | now apply add_lookup_raised ]).
  all: cbn in R1;
       match type of R1 with
       | context [?h GetSecurityRoles ?wg] =>
           destruct (h GetSecurityRoles wg) as [[roles|x] w3]; cbn in R1
       end;
       [ | inversion R1; subst; eapply add_roles_raised; eassumption ].
  all: match type of R1 with
       | context [if arg_admin ?a
                  then append (append ?gs (Grp (userGroupId ?roles) false)) ?y
                  else ?z] =>
           change (if arg_admin a
                   then append (append gs (Grp (userGroupId roles) false)) y
                   else z)
             with (membership a roles gs) in R1;
           destruct (membership a roles gs) as [|primary secondary] eqn:M;
           [ now destruct (membership_nonempty a roles gs) | ]
       end.
  all: destruct (arg_userpassword args) as [pasw|] eqn:P; cbn in R1.
  all: match type of R1 with
       | context [let (_, _) := ?h ?c ?w3 in _] =>
           destruct (h c w3) as [[i|x] w4]; cbn in R1
       end.
  all: try (inversion R1; subst;
            pose proof (add_created args tg gs roles primary secondary i RG M) as H;
            unfold creation_event, added_message in H; rewrite P in H;
            exact H).
  all: pose proof (add_rejected args tg gs roles primary secondary x RG M) as H;
       unfold creation_event, creation_failed in H; rewrite P in H;
       destruct x as [m|m|m|rc|m]; cbn in R1;
       try destruct (is_constraint_violation m); cbn in R1, H;
       inversion R1; subst; try rewrite app_nil_r in H; exact H.
Qed.



Lemma lookups_silent :
  forall names t o,
    lookups names t o ->
    filter is_creation (calls t) = [] /\ outs t = [] /\ errs t = []
    /\ collect roles_read t = [] /\ collect created_id t = [].
Proof.
  induction 1; cbn; auto.
Qed.

Lemma lookups_returned :
  forall names t gs,
    lookups names t (Returned gs) ->
    collect resolved_group t = gs /\ failures t = []
    /\ calls t = map LookupGroup names.
Proof.
  intros names t gs H. remember (Returned gs) as o eqn:E.
  revert gs E. induction H; intros gs' E; inversion E; subst.
  - cbn. auto.
  - destruct (IHlookups gs eq_refl) as (E1 & E2 & E3).
    unfold collect, failures, calls in *. cbn in *.
    rewrite E1, E2, E3. auto.
Qed.

Lemma lookups_failures :
  forall names t o c x,
    lookups names t o -> In (c, x) (failures t) ->
    o = Uncaught x /\ exists name, c = LookupGroup name /\ In name names.
Proof.
  intros names t o c x H. induction H; cbn; intros HIn.
  - contradiction.
  - destruct (IHlookups HIn) as [E _]. discriminate E.
  - destruct (IHlookups HIn) as [E (n & -> & Hn)]. split; eauto.
  - destruct HIn as [HIn|[]]. inversion HIn; subst. split; eauto.
Qed.

Lemma calls_creation_event :
  forall args primary secondary r,
    calls [creation_event args primary secondary r]
    = [creation args primary secondary].
Proof.
  intros. unfold creation_event, creation.
  destruct (arg_userpassword args); reflexivity.
Qed.

Lemma creation_is_creation :
  forall args primary secondary,
    is_creation (creation args primary secondary) = true.
Proof.
  intros. unfold creation. destruct (arg_userpassword args); reflexivity.
Qed.

Lemma failure_creation_event :
  forall args primary secondary r,
    failure (creation_event args primary secondary r)
    = match r with
      | Ok _ => None
      | Raised x => Some (creation args primary secondary, x)
      end.
Proof.
  intros. unfold creation_event, creation.
  destruct (arg_userpassword args); destruct r; reflexivity.
Qed.

Lemma creation_failed_silent :
  forall args x,
    calls (fst (creation_failed args x)) = []
    /\ outs (fst (creation_failed args x)) = []
    /\ failures (fst (creation_failed args x)) = []
    /\ collect resolved_group (fst (creation_failed args x)) = []
    /\ collect roles_read (fst (creation_failed args x)) = []
    /\ collect created_id (fst (creation_failed args x)) = [].
Proof.
  intros args x. unfold creation_failed.
  destruct x as [m|m|m|rc|m]; try destruct (is_constraint_violation m);
    cbn; auto 10.
Qed.

Lemma lookups_resolved_length :
  forall names t gs,
    lookups names t (Returned gs) -> List.length gs = List.length names.
Proof.
  intros names t gs H. remember (Returned gs) as o eqn:E.
  revert gs E. induction H; intros gs' E; inversion E; subst; cbn; auto.
Qed.

(** The observers on a trace, pushed through concatenation. *)
Ltac observe :=
  repeat rewrite ?calls_app, ?outs_app, ?errs_app, ?failures_app,
    ?successes_app, ?collect_app, ?filter_app.

Lemma add_new_creation :
  forall args t o,
    add_new args t o ->
    (filter is_creation (calls t) = [] /\ collect created_id t = [])
    \/ (exists gs roles primary secondary,
          membership args roles gs = primary :: secondary
          /\ List.length gs = List.length (arg_member_of args)
          /\ collect resolved_group t = gs
          /\ collect roles_read t = [roles]
          /\ filter is_creation (calls t) = [creation args primary secondary]
          /\ (forall i, In i (collect created_id t) ->
                o = Returned tt /\ outs t = [added_message args i])).
Proof.
  intros args t o H. destruct H as [tg x L Hx|tg x L Hx|tg gs x L
                                   |tg gs roles p sec i L M
                                   |tg gs roles p sec x L M].
  - left. destruct (lookups_silent _ _ _ L) as (C & _ & _ & _ & I).
    observe. rewrite C, I. auto.
  - left. destruct (lookups_silent _ _ _ L) as (C & _ & _ & _ & I). auto.
  - left. destruct (lookups_silent _ _ _ L) as (C & _ & _ & _ & I).
    observe. rewrite C, I. auto.
  - right. exists gs, roles, p, sec.
    destruct (lookups_silent _ _ _ L) as (C & O & _ & R & I).
    destruct (lookups_returned _ _ _ L) as (G & _ & _).
    split; [assumption|]. split; [eapply lookups_resolved_length; eassumption|].
    observe. rewrite C, O, R, I, G.
    unfold creation_event, creation, added_message.
    destruct (arg_userpassword args); cbn; rewrite ?app_nil_r;
      (splits; intros i0 [<-|[]]; auto).
  - right. exists gs, roles, p, sec.
    destruct (lookups_silent _ _ _ L) as (C & O & _ & R & I).
    destruct (lookups_returned _ _ _ L) as (G & _ & _).
    split; [assumption|]. split; [eapply lookups_resolved_length; eassumption|].
    observe. rewrite C, O, R, I, G.
    unfold creation_event, creation, creation_failed.
    destruct (arg_userpassword args); destruct x as [m|m|m|rc|m];
      try destruct (is_constraint_violation m); cbn; rewrite ?app_nil_r;
      (splits; intros i0 []).
Qed.


Lemma add_new_failures :
  forall args t o c x,
    add_new args t o -> In (c, x) (failures t) ->
    (exists name, c = LookupGroup name
                  /\ o = if is_api_usage x then Uncaught (NonZeroReturnCode 68)
                         else Uncaught x)
    \/ (c = GetSecurityRoles /\ o = Uncaught x)
    \/ (is_creation c = true /\ o = snd (creation_failed args x)).
Proof.
  intros args t o c x H. destruct H as [tg y L Hy|tg y L Hy|tg gs y L
                                       |tg gs roles p sec i L M
                                       |tg gs roles p sec y L M]; observe.
  - cbn. rewrite app_nil_r. intros HIn.
    destruct (lookups_failures _ _ _ _ _ L HIn) as [E (name & -> & _)].
    inversion E; subst. left. exists name. rewrite Hy. auto.
  - intros HIn.
    destruct (lookups_failures _ _ _ _ _ L HIn) as [E (name & -> & _)].
    inversion E; subst. left. exists name. rewrite Hy. auto.
  - destruct (lookups_returned _ _ _ L) as (_ & -> & _). cbn.
    intros [HIn|[]]. inversion HIn; subst. auto.
  - destruct (lookups_returned _ _ _ L) as (_ & -> & _).
    unfold creation_event. destruct (arg_userpassword args); cbn; intros [].
  - destruct (lookups_returned _ _ _ L) as (_ & -> & _).
    destruct (creation_failed_silent args y) as (_ & _ & -> & _).
    unfold failures at 1. cbn. rewrite failure_creation_event. cbn.
    intros [HIn|[]]. inversion HIn; subst.
    right. right. split; [apply creation_is_creation | reflexivity].
Qed.

(** C2.  When [lookupExperimenter] finds the login, [add] issues no
    creation call: with [ignore_existing] it reports the user as existing on
    the output channel and returns; without it the process exits with
    code 3. *)
Theorem add_existing_login :
  forall (W : Type) (h : env W) (w w1 : W) (args : AddArgs) (usr : Experimenter),
    h (LookupExperimenter (arg_username args)) w = (Ok (Some usr), w1) ->
    let t := trace h w (add args) in
    let o := outcome_of h w (add args) in
    filter is_creation (calls t) = []
    /\ (arg_ignore_existing args = true ->
        o = Returned tt
        /\ outs t = ["User exists: " ++ arg_username args
                       ++ " (id=" ++ str (id usr) ++ ")"]
        /\ errs t = [])
    /\ (arg_ignore_existing args = false -> exit_code o = Some 3).
Proof.
  intros W h w w1 args usr H. unfold trace, outcome_of, add.
  unfold lookupExperimenter, out, die, call. cbn. rewrite H. cbn.
  destruct (arg_ignore_existing args); cbn;
    (split; [reflexivity|split; intros E; try discriminate E; auto]).
Qed.

(** C4.  A [lookupGroup] that fails to resolve a [member_of] entry ends
    [add] with exit code 68; a creation call that raises a validation error
    ends it with 66 when the error is a constraint violation and with 67
    otherwise; a creation call that raises a security violation ends it
    with 68. *)
Theorem add_exit_codes :
  forall (W : Type) (h : env W) (w : W) (args : AddArgs),
    let t := trace h w (add args) in
    let o := outcome_of h w (add args) in
    (forall name message,
        In (LookupGroup name, ApiUsageException message) (failures t) ->
        exit_code o = Some 68)
    /\ (forall c message,
          is_creation c = true ->
          In (c, ValidationException message) (failures t) ->
          exit_code o = Some (if is_constraint_violation message then 66 else 67))
    /\ (forall c message,
          is_creation c = true ->
          In (c, SecurityViolation message) (failures t) ->
          exit_code o = Some 68).
Proof.
  intros W h w args. unfold trace, outcome_of.
  destruct (run h w (add args)) as [[t o] w'] eqn:R. cbn [fst snd].
  apply run_add in R.
  assert (N : forall t' o' c x,
             add_new args t' o' -> In (c, x) (failures t') ->
             (forall name m, c = LookupGroup name -> x = ApiUsageException m ->
                             exit_code o' = Some 68)
             /\ (forall m, is_creation c = true -> x = ValidationException m ->
                           exit_code o' =
                             Some (if is_constraint_violation m then 66 else 67))
             /\ (forall m, is_creation c = true -> x = SecurityViolation m ->
                           exit_code o' = Some 68)).
  { intros t' o' c x A HIn.
    destruct (add_new_failures _ _ _ _ _ A HIn)
      as [(name & -> & ->)|[(-> & ->)|(Hc & ->)]].
    - splits. split; [|split]; intros; subst; try discriminate; reflexivity.
    - splits. split; [|split]; intros; subst; try discriminate.
    - splits. split; [|split]; intros; subst; try discriminate; cbn;
        try destruct (is_constraint_violation _); reflexivity. }
  destruct R as [usr I|usr I|x Hx|t o A|x t o Hx A].
  - cbn. split; [|split]; intros; contradiction.
  - cbn. split; [|split]; intros; contradiction.
  - cbn. split; [|split].
    + intros name m [H|[]]. discriminate H.
    + intros c m Hc [H|[]]. inversion H; subst. discriminate Hc.
    + intros c m Hc [H|[]]. inversion H; subst. discriminate Hc.
  - change (failures (EvCall (LookupExperimenter (arg_username args)) (Ok None) :: t))
      with (failures t).
    split; [|split]; intros;
      match goal with
      | H : In _ (failures t) |- _ =>
          destruct (N _ _ _ _ A H) as (N1 & N2 & N3); eauto
      end.
  - change (failures (EvCall (LookupExperimenter (arg_username args)) (Raised x) :: t))
      with ((LookupExperimenter (arg_username args), x) :: failures t).
    split; [|split]; intros;
      match goal with
      | H : In _ (_ :: failures t) |- _ =>
          destruct H as [H|H];
          [ inversion H; subst; discriminate
          | destruct (N _ _ _ _ A H) as (N1 & N2 & N3); eauto ]
      end.
Qed.

Lemma membership_cons :
  forall args roles g gs,
    membership args roles (g :: gs)
    = g :: (gs ++ Grp (userGroupId roles) false
                  :: (if arg_admin args
                      then [Grp (systemGroupId roles) false] else []))%list.
Proof.
  intros. unfold membership, append. destruct (arg_admin args); cbn.
  - now rewrite <- app_assoc.
  - reflexivity.
Qed.

Lemma run_lookups_resolved :
  forall (W : Type) (h : env W) names (w : W),
    failures (fst (replies h w (map LookupGroup names))) = [] ->
    run h w (comprehension names lookupGroup)
    = (fst (replies h w (map LookupGroup names)),
       Returned (collect resolved_group
                   (fst (replies h w (map LookupGroup names)))),
       snd (replies h w (map LookupGroup names))).
Proof.
  intros W h names. induction names as [|name names IH]; intros w.
  - reflexivity.
  - cbn [comprehension map]. unfold lookupGroup at 1, call.
    rewrite run_bind, replies_cons. cbn [run].
    destruct (h (LookupGroup name) w) as [[g|x] w1]; cbn [run].
    + rewrite run_bind. specialize (IH w1).
      destruct (replies h w1 (map LookupGroup names)) as [t1 w2].
      cbn [fst snd] in *. intros F. rewrite IH by exact F.
      cbn. now rewrite app_nil_r.
    + destruct (replies h w1 (map LookupGroup names)) as [t1 w2].
      intros F. discriminate F.
Qed.

(** C3.  Let the environment answer that the login is free, resolve every
    [member_of] entry, the groups being [g1 :: gs], and give the roles.
    Then [add] makes the calls [lookupExperimenter], [lookupGroup] for
    every entry, [getSecurityRoles] and one creation call, in this order;
    the primary group of the creation call is [g1] and its secondary groups
    are [gs] followed by the default user group, followed by the system
    group when the admin flag is set; it is [createExperimenterWithPassword]
    when a password is given.  When the environment answers the creation
    call with the id [i], [add] returns and prints "Added user i", with the
    suffix " with password" when a password was given, and nothing on the
    error channel. *)
Theorem add_primary_and_secondary_groups :
  forall (W : Type) (h : env W) (w w1 : W) (args : AddArgs)
         (r : result (option Experimenter)) g1 gs roles,
    let login := arg_username args in
    let found :=
      replies h w1
        (map LookupGroup (arg_member_of args) ++ [GetSecurityRoles])%list in
    let c :=
      creation args g1
        (gs ++ Grp (userGroupId roles) false
            :: (if arg_admin args
                then [Grp (systemGroupId roles) false] else []))%list in
    let t := trace h w (add args) in
    h (LookupExperimenter login) w = (r, w1) ->
    no_such_user r = true ->
    failures (fst found) = [] ->
    collect resolved_group (fst found) = g1 :: gs ->
    collect roles_read (fst found) = [roles] ->
    calls t
    = (LookupExperimenter login
       :: map LookupGroup (arg_member_of args) ++ [GetSecurityRoles; c])%list
    /\ (forall i,
          collect created_id (fst (replies h (snd found) [c])) = [i] ->
          outcome_of h w (add args) = Returned tt
          /\ outs t = [match arg_userpassword args with
                       | None => "Added user " ++ str i
                       | Some _ => "Added user " ++ str i ++ " with password"
                       end]
          /\ errs t = []).
Proof.
  intros W h w w1 args r g1 gs roles login found c t H Hfree Hf Hg Hr.
  unfold found in *. clear found. rewrite replies_app in *.
  pose proof (calls_replies W h (map LookupGroup (arg_member_of args)) w1) as Cg.
  pose proof (outs_replies W h (map LookupGroup (arg_member_of args)) w1) as Og.
  assert (Rg : collect roles_read
                 (fst (replies h w1 (map LookupGroup (arg_member_of args)))) = []).
  { apply collect_replies. intros c0 r0 K. apply in_map_iff in K.
    destruct K as (n & <- & _). reflexivity. }
  pose proof (errs_replies W h (map LookupGroup (arg_member_of args)) w1) as Eg.
  pose proof (run_lookups_resolved W h (arg_member_of args) w1) as Rl.
  destruct (replies h w1 (map LookupGroup (arg_member_of args))) as [tg wg].
  rewrite replies_cons in *. cbn [replies] in *.
  destruct (h GetSecurityRoles wg) as [rr w3] eqn:HR. cbn [fst snd] in *.
  rewrite failures_app in Hf. apply app_eq_nil in Hf. destruct Hf as [Fg Fr].
  specialize (Rl Fg).
  rewrite collect_app, Rg in Hr. rewrite collect_app in Hg.
  destruct rr as [roles'|x]; [|discriminate Fr].
  cbn in Hr, Hg. injection Hr as ->. rewrite app_nil_r in Hg.
  set (sec := (gs ++ Grp (userGroupId roles) false
                  :: (if arg_admin args
                      then [Grp (systemGroupId roles) false] else []))%list) in *.
  assert (R : run h w (add args)
              = let (rc, w4) := creation_reply h w3 args g1 sec in
                ((EvCall (LookupExperimenter login) r :: tg
                  ++ [EvCall GetSecurityRoles (Ok roles);
                      creation_event args g1 sec rc]
                  ++ match rc with
                     | Ok i => [EvOut (added_message args i)]
                     | Raised x => fst (creation_failed args x)
                     end)%list,
                 match rc with
                 | Ok _ => Returned tt
                 | Raised x => snd (creation_failed args x)
                 end, w4)).
  { unfold add, lookupExperimenter, getSecurityRoles, createExperimenter,
      createExperimenterWithPassword, out, die, call. cbn.
    fold login. rewrite H.
    destruct r as [[usr|]|x]; cbn in Hfree; try discriminate Hfree;
      cbn; [|rewrite Hfree; cbn];
      rewrite run_bind, run_try_except, Rl; cbn; rewrite HR; cbn;
      rewrite Hg;
      change (if arg_admin args
              then append (append (g1 :: gs) (Grp (userGroupId roles) false))
                     (Grp (systemGroupId roles) false)
              else append (g1 :: gs) (Grp (userGroupId roles) false))
        with (membership args roles (g1 :: gs));
      rewrite membership_cons; fold sec;
      unfold creation_reply, creation_event, creation_failed, added_message;
      destruct (arg_userpassword args) as [pasw|]; cbn;
      match goal with
      | |- context [h ?k w3] => destruct (h k w3) as [[i|y] w4]
      end; cbn;
      try (destruct y as [m|m|m|rc|m]; cbn;
           try destruct (is_constraint_violation m); cbn);
      rewrite ?app_nil_r; reflexivity. }
  assert (Rc : fst (replies h w3 [c])
               = [creation_event args g1 sec
                    (fst (creation_reply h w3 args g1 sec))]).
  { unfold c, creation, creation_reply, creation_event.
    destruct (arg_userpassword args); cbn [replies];
      match goal with
      | |- context [h ?k w3] => destruct (h k w3) as [rc w4]
      end; reflexivity. }
  split.
  - unfold t, trace. rewrite R.
    destruct (creation_reply h w3 args g1 sec) as [[i|x] w4]; cbn [fst];
      rewrite calls_call, !calls_app, Cg;
      match goal with
      | |- context [calls [EvCall GetSecurityRoles (Ok roles);
                           creation_event args g1 sec ?rc]] =>
          change (calls [EvCall GetSecurityRoles (Ok roles);
                         creation_event args g1 sec rc])
            with (GetSecurityRoles :: calls [creation_event args g1 sec rc])
      end;
      rewrite calls_creation_event.
    + reflexivity.
    + destruct (creation_failed_silent args x) as (-> & _). reflexivity.
  - intros i Hi. unfold t, trace, outcome_of. rewrite R.
    change (collect created_id (fst (replies h w3 [c])) = [i]) in Hi.
    rewrite Rc in Hi.
    destruct (creation_reply h w3 args g1 sec) as [[i'|x] w4]; cbn [fst snd] in *.
    + assert (i' = i).
      { unfold creation_event in Hi. destruct (arg_userpassword args);
          cbn in Hi; now injection Hi. }
      subst i'. rewrite outs_call, errs_call, !outs_app, !errs_app, Og, Eg.
      unfold creation_event, added_message.
      destruct (arg_userpassword args); cbn; auto.
    + unfold creation_event in Hi. destruct (arg_userpassword args);
        cbn in Hi; discriminate Hi.
Qed.


(** *** [email] *)

Lemma append_assoc :
  forall s1 s2 s3 : string, (s1 ++ s2) ++ s3 = s1 ++ s2 ++ s3.
Proof.
  induction s1 as [|ch s1 IH]; intros s2 s3.
  - reflexivity.
  - change (String ch ((s1 ++ s2) ++ s3) = String ch (s1 ++ s2 ++ s3)).
    now rewrite IH.
Qed.

Lemma email_step_spec :
  forall args skipped records u,
    email_step args (skipped, records) u
    = ((skipped ++ if ea_ignore args then []
                   else if has_email u then [] else [u])%list,
       (records ++ if has_email u then [email_entry args u] else [])%list).
Proof.
  intros args skipped records u.
  unfold email_step, has_email, email_entry, email_of, append.
  destruct (email (details u)) as [[|ch em]|]; cbn [if_truthy truthy];
    destruct (ea_ignore args), (ea_names args); cbn [negb];
    rewrite ?app_nil_r; reflexivity.
Qed.

Lemma email_loop :
  forall args users skipped records,
    fold_left (email_step args) users (skipped, records)
    = ((skipped ++ if ea_ignore args then []
                   else filter (fun u => negb (has_email u)) users)%list,
       (records ++ map (email_entry args) (filter has_email users))%list).
Proof.
  intros args users. induction users as [|u users IH]; intros skipped records.
  - cbn. destruct (ea_ignore args); now rewrite !app_nil_r.
  - cbn [fold_left filter]. rewrite email_step_spec, IH.
    destruct (ea_ignore args), (has_email u); cbn [negb map];
      rewrite <- ?app_assoc; reflexivity.
Qed.

Lemma run_for_each_out :
  forall (W : Type) (h : env W) (w : W) (l : list string),
    run h w (for_each l out) = (map EvOut l, Returned tt, w).
Proof.
  intros W h w l. induction l as [|s l IH]; cbn.
  - reflexivity.
  - now rewrite IH.
Qed.

Lemma run_for_each_err :
  forall (W A : Type) (h : env W) (w : W) (f : A -> string) (l : list A),
    run h w (for_each l (fun a => err (f a)))
    = (map (fun a => EvErr (f a)) l, Returned tt, w).
Proof.
  intros W A h w f l. induction l as [|s l IH]; cbn.
  - reflexivity.
  - now rewrite IH.
Qed.

Lemma outs_map_EvOut : forall l, outs (map EvOut l) = l.
Proof. induction l as [|s l IH]; [reflexivity|]. cbn. f_equal. exact IH. Qed.

Lemma errs_map_EvOut : forall l, errs (map EvOut l) = [].
Proof. induction l as [|s l IH]; [reflexivity|]. exact IH. Qed.

Lemma outs_map_EvErr :
  forall (A : Type) (f : A -> string) l, outs (map (fun a => EvErr (f a)) l) = [].
Proof. induction l as [|s l IH]; [reflexivity|]. exact IH. Qed.

Lemma errs_map_EvErr :
  forall (A : Type) (f : A -> string) l,
    errs (map (fun a => EvErr (f a)) l) = map f l.
Proof. induction l as [|s l IH]; [reflexivity|]. cbn. f_equal. exact IH. Qed.

Lemma email_trace :
  forall (W : Type) (h : env W) (w w1 : W) (args : EmailArgs)
         (users : list Experimenter),
    h LookupExperimenters w = (Ok users, w1) ->
    let with_email := filter has_email users in
    let without := filter (fun u => negb (has_email u)) users in
    trace h w (email_ args)
    = EvCall LookupExperimenters (Ok users)
      :: (map EvOut (if ea_one args
                     then map (email_entry args) with_email
                     else [join ", " (map (email_entry args) with_email)])
          ++ map EvErr (if ea_ignore args then []
                        else match without with
                             | [] => []
                             | _ :: _ => "Missing email addresses:"
                                         :: map format_name without
                             end))%list.
Proof.
  intros W h w w1 args users H. unfold trace, email_.
  unfold lookupExperimenters, call. cbn [bind run]. rewrite H.
  cbn [bind]. rewrite email_loop. cbn [app].
  set (records := map (email_entry args) (filter has_email users)).
  set (skipped := filter (fun u => negb (has_email u)) users).
  rewrite run_bind.
  assert (E : run h w1 (if ea_one args then for_each records out
                        else out (join ", " records))
              = (map EvOut (if ea_one args then records
                            else [join ", " records]), Returned tt, w1)).
  { destruct (ea_one args); [apply run_for_each_out | reflexivity]. }
  rewrite E. clear E.
  assert (S : run h w1
                (match (if ea_ignore args then [] else skipped) with
                 | [] => Ret tt
                 | _ :: _ =>
                     err "Missing email addresses:" ;;
                     for_each (if ea_ignore args then [] else skipped)
                       (fun s => err (format_name s))
                 end)
              = (map EvErr
                   (if ea_ignore args then []
                    else match skipped with
                         | [] => []
                         | _ :: _ => "Missing email addresses:"
                                     :: map format_name skipped
                         end), Returned tt, w1)).
  { destruct (ea_ignore args); [reflexivity|].
    destruct skipped as [|u l]; [reflexivity|].
    cbn [bind err]. cbn [run]. rewrite run_for_each_err.
    cbn [map]. now rewrite map_map. }
  rewrite S. reflexivity.
Qed.

(** C7.  [email] writes to the output channel the entries of the users that
    have an email, in order: on one comma-space-joined line, or one per line
    with [one]; an entry is the email, or the quoted display name followed by
    the email in angle brackets with [names].  The users without an email
    are in no entry; unless [ignore] is set their display names are written
    to the error channel, after a heading.  A display name is
    "first last", or "first middle last" when there is a middle name. *)
Theorem email_channels :
  forall (W : Type) (h : env W) (w w1 : W) (args : EmailArgs)
         (users : list Experimenter),
    h LookupExperimenters w = (Ok users, w1) ->
    let t := trace h w (email_ args) in
    let with_email := filter has_email users in
    let without := filter (fun u => negb (has_email u)) users in
    outs t = (if ea_one args
              then map (email_entry args) with_email
              else [join ", " (map (email_entry args) with_email)])
    /\ errs t = (if ea_ignore args then []
                 else match without with
                      | [] => []
                      | _ :: _ => "Missing email addresses:"
                                  :: map format_name without
                      end)
    /\ (forall u,
          format_name u
          = if truthy (middleName (details u))
            then firstName (details u) ++ " "
                 ++ match middleName (details u) with
                    | Some m => m
                    | None => EmptyString
                    end ++ " " ++ lastName (details u)
            else firstName (details u) ++ " " ++ lastName (details u)).
Proof.
  intros W h w w1 args users H. cbn zeta. rewrite (email_trace W h w w1 args users H).
  change (EvCall LookupExperimenters (Ok users) :: ?l)
    with ([EvCall LookupExperimenters (Ok users)] ++ l)%list.
  observe.
  rewrite outs_map_EvOut, errs_map_EvOut.
  rewrite (outs_map_EvErr string (fun s => s)), (errs_map_EvErr string (fun s => s)).
  rewrite map_id. cbn [outs errs flat_map app]. rewrite app_nil_r.
  split; [reflexivity|]. split; [reflexivity|].
  intros u. unfold format_name.
  destruct (middleName (details u)) as [[|ch m]|]; cbn [if_truthy truthy];
    rewrite ?append_assoc; reflexivity.
Qed.


(** *** [list] *)

Lemma classify_fold :
  forall ug sg (l : list (option GroupExperimenterMap)) (f : Flags),
    let links := flat_map (fun x => match x with Some l => [l] | None => [] end) l in
    fold_left (classify ug sg) l f
    = {| active := yes_if (negb (match groups_in Active ug sg links with
                                 | [] => true | _ :: _ => false end))
                     (active f);
         admin := yes_if (negb (match groups_in Admin ug sg links with
                                | [] => true | _ :: _ => false end))
                    (admin f);
         member_of := (member_of f ++ map str (groups_in MemberOf ug sg links))%list;
         leader_of := (leader_of f ++ map str (groups_in LeaderOf ug sg links))%list |}.
Proof.
  intros ug sg l. induction l as [|[x|] l IH]; intros f; cbn zeta.
  - cbn. rewrite !app_nil_r. now destruct f.
  - cbn [fold_left flat_map app]. rewrite IH. clear IH.
    unfold classify, groups_in, column_of. cbn [filter].
    destruct (ug =? parent x)%Z; [|destruct (sg =? parent x)%Z; [|destruct (owner x)]];
      cbn [same_column map active admin member_of leader_of negb yes_if];
      unfold append; rewrite <- ?app_assoc; cbn [app];
      repeat match goal with
             | |- context [match ?l with [] => _ | _ :: _ => _ end] =>
                 destruct l; cbn [negb yes_if]
             end; reflexivity.
  - cbn [fold_left flat_map app]. rewrite IH. reflexivity.
Qed.

Lemma flags_of_spec :
  forall ug sg user,
    flags_of ug sg user
    = {| active := yes_if (negb (match groups_in Active ug sg (links_of user) with
                                 | [] => true | _ :: _ => false end))
                     EmptyString;
         admin := yes_if (negb (match groups_in Admin ug sg (links_of user) with
                                | [] => true | _ :: _ => false end))
                    EmptyString;
         member_of := map str (groups_in MemberOf ug sg (links_of user));
         leader_of := map str (groups_in LeaderOf ug sg (links_of user)) |}.
Proof.
  intros. unfold flags_of. now rewrite classify_fold.
Qed.

(** [str] is injective and yields a non-empty string without commas. *)

Lemma str_inj : forall a b : Z, str a = str b -> a = b.
Proof.
  intros a b H. unfold str in H.
  apply DecimalZ.to_int_inj.
  assert (E : Some (Z.to_int a) = Some (Z.to_int b)).
  { rewrite <- (NilEmpty.isi (Z.to_int a)), <- (NilEmpty.isi (Z.to_int b)).
    now rewrite H. }
  now inversion E.
Qed.

Lemma string_of_uint_comma_free :
  forall d, comma_free (NilEmpty.string_of_uint d) = true.
Proof.
  induction d; cbn; auto.
Qed.

Lemma str_comma_free : forall z, comma_free (str z) = true.
Proof.
  intros z. unfold str, NilEmpty.string_of_int.
  destruct (Z.to_int z); cbn; apply string_of_uint_comma_free.
Qed.

Lemma str_nonempty : forall z, str z <> EmptyString.
Proof.
  intros z H.
  pose proof (NilEmpty.isi (Z.to_int z)) as E.
  unfold str in H. rewrite H in E. cbn in E.
  injection E as E. apply (f_equal Z.of_int) in E.
  rewrite DecimalZ.of_to in E. subst z. discriminate H.
Qed.

Lemma split_commas_free :
  forall x s tok rest,
    comma_free x = true ->
    split_commas s = tok :: rest ->
    split_commas (x ++ s) = (x ++ tok) :: rest.
Proof.
  induction x as [|a x IH]; intros s tok rest H E.
  - exact E.
  - cbn in H. apply andb_prop in H. destruct H as [Ha Hx].
    change (String a x ++ s) with (String a (x ++ s)). cbn [split_commas].
    destruct (Ascii.eqb a ","); [discriminate Ha|].
    now rewrite (IH s tok rest Hx E).
Qed.

Lemma append_nil_r : forall s : string, s ++ EmptyString = s.
Proof.
  induction s as [|a s IH]; [reflexivity|].
  change (String a (s ++ EmptyString) = String a s). now rewrite IH.
Qed.

Lemma join_cons :
  forall sep x y l, join sep (x :: y :: l) = x ++ sep ++ join sep (y :: l).
Proof. reflexivity. Qed.

Lemma split_commas_comma :
  forall s, split_commas ("," ++ s) = EmptyString :: split_commas s.
Proof. reflexivity. Qed.

Lemma split_commas_join :
  forall x l,
    Forall (fun s => comma_free s = true) (x :: l) ->
    split_commas (join "," (x :: l)) = x :: l.
Proof.
  intros x l. revert x. induction l as [|y l IH]; intros x H.
  - inversion H; subst. change (join "," [x]) with x.
    rewrite <- (append_nil_r x) at 1.
    rewrite (split_commas_free x EmptyString EmptyString []); auto.
    now rewrite append_nil_r.
  - inversion H; subst. rewrite join_cons.
    rewrite (split_commas_free x _ EmptyString (y :: l)); auto.
    + now rewrite append_nil_r.
    + rewrite split_commas_comma. now rewrite IH.
Qed.

Lemma column_entries_column :
  forall gids,
    column_entries (column (map str gids))
    = match gids with
      | [] => [EmptyString]
      | _ :: _ => map str gids
      end.
Proof.
  intros [|g gids]; [reflexivity|].
  unfold column_entries, column. cbn [map]. apply split_commas_join.
  change (str g :: map str gids) with (map str (g :: gids)).
  apply Forall_map, Forall_forall. intros z _. apply str_comma_free.
Qed.

Lemma not_in_column :
  forall g gids,
    ~ In g gids -> ~ In (str g) (column_entries (column (map str gids))).
Proof.
  intros g gids H. rewrite column_entries_column. destruct gids as [|z gids].
  - intros [E|[]]. now apply (str_nonempty g).
  - intros HIn. apply in_map_iff in HIn. destruct HIn as (z' & E & HIn).
    apply str_inj in E. subst z'. auto.
Qed.





(** The sort. *)

Lemma insert_by_id_perm :
  forall u l, Permutation (insert_by_id u l) (u :: l).
Proof.
  intros u l. induction l as [|v l IH]; cbn.
  - reflexivity.
  - destruct (id u <=? id v)%Z; [reflexivity|].
    rewrite IH. apply perm_swap.
Qed.

Lemma sort_by_id_perm :
  forall l, Permutation (sort_by_id l) l.
Proof.
  induction l as [|u l IH]; cbn.
  - reflexivity.
  - rewrite insert_by_id_perm. now constructor.
Qed.

Lemma insert_by_id_sorted :
  forall u l, StronglySorted by_id l -> StronglySorted by_id (insert_by_id u l).
Proof.
  intros u l H. induction H as [|v l H IH F]; cbn.
  - repeat constructor.
  - destruct (id u <=? id v)%Z eqn:E.
    + apply Z.leb_le in E. constructor; [now constructor|].
      constructor; [exact E|].
      eapply Forall_impl; [|exact F]. unfold by_id. intros; lia.
    + apply Z.leb_gt in E. constructor; [exact IH|].
      rewrite (insert_by_id_perm u l). constructor; [unfold by_id; lia|exact F].
Qed.

Lemma sort_by_id_sorted :
  forall l, StronglySorted by_id (sort_by_id l).
Proof.
  induction l as [|u l IH]; cbn.
  - constructor.
  - now apply insert_by_id_sorted.
Qed.

Lemma sorted_ids :
  forall l, StronglySorted by_id l -> StronglySorted Z.le (map id l).
Proof.
  induction 1 as [|u l H IH F]; cbn; constructor; auto.
  apply Forall_map. exact F.
Qed.

Lemma sorted_nodup_strict :
  forall l : list Z,
    StronglySorted Z.le l -> NoDup l -> StronglySorted Z.lt l.
Proof.
  induction 1 as [|z l H IH F]; intros N.
  - constructor.
  - inversion N as [|? ? Hz N']; subst. constructor; [auto|].
    rewrite Forall_forall in *. intros y Hy.
    specialize (F y Hy). assert (y <> z) by (intros ->; auto). lia.
Qed.

Lemma list_rows_ids :
  forall roles users,
    map col_id (list_rows roles users) = map id (sort_by_id users).
Proof.
  intros. unfold list_rows. rewrite map_map. reflexivity.
Qed.

Lemma groups_in_column :
  forall k ug sg links g,
    In g (groups_in k ug sg links) ->
    exists x, In x links /\ parent x = g /\ column_of ug sg x = k.
Proof.
  intros k ug sg links g H. unfold groups_in in H.
  apply in_map_iff in H. destruct H as (x & E & H).
  apply filter_In in H. destruct H as [H K].
  exists x. split; [exact H|]. split; [exact E|].
  destruct (column_of ug sg x), k; (reflexivity || discriminate K).
Qed.

Lemma in_links_of :
  forall user x,
    In (Some x) (groupExperimenterMap user) <-> In x (links_of user).
Proof.
  intros user x. unfold links_of. rewrite in_flat_map. split.
  - intros H. exists (Some x). cbn. auto.
  - intros ([y|] & H & K); cbn in K; [|contradiction].
    destruct K as [->|[]]. exact H.
Qed.

Lemma in_groups_in :
  forall k ug sg links x,
    In x links -> column_of ug sg x = k ->
    In (parent x) (groups_in k ug sg links).
Proof.
  intros k ug sg links x H K. unfold groups_in.
  apply in_map, filter_In. split; [exact H|]. rewrite K.
  now destruct k.
Qed.

(** C5.  The rows that [list] hands to the table are those of the users,
    strictly ascending by user id (the ids of the users being pairwise
    distinct); for every user, a link to the default user group gives "Yes"
    in the active column and a link to the system group "Yes" in the admin
    column (the two groups being distinct), and neither group id is an
    entry of the member-of column. *)
Theorem list_rows_sorted_and_flagged :
  forall (W : Type) (h : env W) (w w1 w2 : W)
         (users : list Experimenter) (roles : Roles),
    h LookupExperimenters w = (Ok users, w1) ->
    h GetSecurityRoles w1 = (Ok roles, w2) ->
    NoDup (map id users) ->
    userGroupId roles <> systemGroupId roles ->
    let rows := list_rows roles users in
    outs (trace h w list_) = [TableBuilder header rows]
    /\ Permutation (map col_id rows) (map id users)
    /\ StronglySorted Z.lt (map col_id rows)
    /\ forall user,
         In user users ->
         let row := row_of (userGroupId roles) (systemGroupId roles) user in
         In row rows
         /\ (forall x, In (Some x) (groupExperimenterMap user) ->
                       parent x = userGroupId roles -> col_active row = "Yes")
         /\ ~ In (str (userGroupId roles)) (column_entries (col_member_of row))
         /\ (forall x, In (Some x) (groupExperimenterMap user) ->
                       parent x = systemGroupId roles -> col_admin row = "Yes")
         /\ ~ In (str (systemGroupId roles)) (column_entries (col_member_of row)).
Proof.
  intros W h w w1 w2 users roles H1 H2 N D rows.
  assert (P : Permutation (map col_id rows) (map id users)).
  { unfold rows. rewrite list_rows_ids. apply Permutation_map, sort_by_id_perm. }
  split; [|split; [exact P|split]].
  - unfold trace, list_, lookupExperimenters, getSecurityRoles, out, call.
    cbn. rewrite H1. cbn. rewrite H2. reflexivity.
  - apply sorted_nodup_strict.
    + unfold rows. rewrite list_rows_ids. apply sorted_ids, sort_by_id_sorted.
    + eapply Permutation_NoDup; [symmetry; exact P|exact N].
  - intros user Hu row. split.
    { unfold rows, list_rows. apply in_map.
      eapply Permutation_in; [symmetry; apply sort_by_id_perm|exact Hu]. }
    unfold row, row_of. cbn [col_active col_admin col_member_of].
    rewrite flags_of_spec. cbn [active admin member_of].
    set (ug := userGroupId roles) in *. set (sg := systemGroupId roles) in *.
    split; [|split; [|split]].
    + intros x Hx Px. apply in_links_of in Hx.
      assert (K : In (parent x) (groups_in Active ug sg (links_of user))).
      { apply in_groups_in; [exact Hx|]. unfold column_of.
        rewrite Px, Z.eqb_refl. reflexivity. }
      destruct (groups_in Active ug sg (links_of user)); [contradiction|reflexivity].
    + apply not_in_column. intros K.
      apply groups_in_column in K. destruct K as (x & _ & Px & K).
      unfold column_of in K. rewrite Px, Z.eqb_refl in K. discriminate K.
    + intros x Hx Px. apply in_links_of in Hx.
      assert (K : In (parent x) (groups_in Admin ug sg (links_of user))).
      { apply in_groups_in; [exact Hx|]. unfold column_of.
        rewrite Px, Z.eqb_refl.
        destruct (ug =? sg)%Z eqn:E; [apply Z.eqb_eq in E; contradiction|].
        reflexivity. }
      destruct (groups_in Admin ug sg (links_of user)); [contradiction|reflexivity].
    + apply not_in_column. intros K.
      apply groups_in_column in K. destruct K as (x & _ & Px & K).
      unfold column_of in K. rewrite Px, Z.eqb_refl in K.
      destruct (ug =? sg)%Z; discriminate K.
Qed.

(** C6, amended.  The leader-of column of a user holds the comma-joined
    ids, in link order, of the groups of the links that have the owner flag
    set and whose group is neither the default user group nor the system
    group.  A link with the owner flag to the default user group puts "Yes"
    in the active column, and one to the system group puts "Yes" in the
    admin column when the system group is not also the default user group;
    the id of neither group is an entry of the leader-of column. *)
Theorem list_leader_of_column :
  forall (roles : Roles) (user : Experimenter),
    let ug := userGroupId roles in
    let sg := systemGroupId roles in
    let row := row_of ug sg user in
    col_leader_of row
    = column (map str (map parent
        (filter (fun x => owner x && negb (parent x =? ug)%Z
                          && negb (parent x =? sg)%Z)
           (links_of user))))
    /\ ~ In (str ug) (column_entries (col_leader_of row))
    /\ ~ In (str sg) (column_entries (col_leader_of row))
    /\ (forall x,
          In (Some x) (groupExperimenterMap user) -> owner x = true ->
          (parent x = ug -> col_active row = "Yes")
          /\ (parent x = sg -> ug <> sg -> col_admin row = "Yes")).
Proof.
  intros roles user ug sg row. unfold row, row_of.
  cbn [col_leader_of col_active col_admin].
  rewrite flags_of_spec. cbn [leader_of active admin].
  split; [|split; [|split]].
  - unfold groups_in. do 3 f_equal. apply filter_ext. intros x.
    unfold column_of.
    rewrite (Z.eqb_sym (parent x) ug), (Z.eqb_sym (parent x) sg).
    destruct (ug =? parent x)%Z, (sg =? parent x)%Z, (owner x); reflexivity.
  - apply not_in_column. intros K.
    apply groups_in_column in K. destruct K as (x & _ & Px & K).
    unfold column_of in K. rewrite Px, Z.eqb_refl in K. discriminate K.
  - apply not_in_column. intros K.
    apply groups_in_column in K. destruct K as (x & _ & Px & K).
    unfold column_of in K. rewrite Px, Z.eqb_refl in K.
    destruct (ug =? sg)%Z; discriminate K.
  - intros x Hx _. apply in_links_of in Hx. split.
    + intros Px.
      assert (K : In (parent x) (groups_in Active ug sg (links_of user))).
      { apply in_groups_in; [exact Hx|]. unfold column_of.
        rewrite Px, Z.eqb_refl. reflexivity. }
      destruct (groups_in Active ug sg (links_of user)); [contradiction|reflexivity].
    + intros Px D.
      assert (K : In (parent x) (groups_in Admin ug sg (links_of user))).
      { apply in_groups_in; [exact Hx|]. unfold column_of.
        rewrite Px, Z.eqb_refl.
        destruct (ug =? sg)%Z eqn:E; [apply Z.eqb_eq in E; contradiction|].
        reflexivity. }
      destruct (groups_in Admin ug sg (links_of user)); [contradiction|reflexivity].
Qed.

(** *** [joingroup] and [leavegroup] *)

Lemma remove_first_app :
  forall x l1 l2,
    ~ In x l1 -> remove_first x (l1 ++ x :: l2)%list = (l1 ++ l2)%list.
Proof.
  intros x l1 l2. induction l1 as [|y l1 IH]; intros H; cbn.
  - destruct (group_eq_dec x x); [reflexivity|congruence].
  - destruct (group_eq_dec x y) as [->|_].
    + exfalso. apply H. now left.
    + rewrite IH; [reflexivity|]. intros K. apply H. now right.
Qed.

Lemma filter_groups_loop_step :
  forall g pending groups uid owner join,
    filter_groups_loop (g :: pending) groups uid owner join
    = if is_noop join owner uid g
      then out (noop_message join owner uid g) ;;
           filter_groups_loop pending (remove_first g groups) uid owner join
      else filter_groups_loop pending groups uid owner join.
Proof.
  intros g pending groups uid o j. unfold is_noop, relation_ids, noop_message.
  destruct o, j; cbn [filter_groups_loop];
    match goal with
    | |- context [mem uid ?l] => destruct (mem uid l)
    end; reflexivity.
Qed.

Lemma run_filter_groups_loop :
  forall (W : Type) (h : env W) (w : W) uid owner join pending kept,
    Forall (fun g => is_noop join owner uid g = false) kept ->
    run h w (filter_groups_loop pending (kept ++ pending)%list uid owner join)
    = (map EvOut (map (noop_message join owner uid)
                    (filter (is_noop join owner uid) pending)),
       Returned (kept ++ filter (fun g => negb (is_noop join owner uid g)) pending)%list,
       w).
Proof.
  intros W h w uid o j pending.
  induction pending as [|g pending IH]; intros kept K.
  - reflexivity.
  - rewrite filter_groups_loop_step. cbn [filter].
    destruct (is_noop j o uid g) eqn:N; cbn [negb].
    + rewrite remove_first_app.
      * cbn [bind out run]. rewrite (IH kept K). reflexivity.
      * intros HIn. rewrite Forall_forall in K. specialize (K g HIn).
        congruence.
    + change (kept ++ g :: pending)%list with (kept ++ [g] ++ pending)%list.
      rewrite app_assoc, IH.
      * rewrite <- app_assoc. reflexivity.
      * apply Forall_app. split; [exact K|]. now repeat constructor.
Qed.

Lemma run_filter_groups :
  forall (W : Type) (h : env W) (w : W) groups uid owner join,
    run h w (filter_groups groups uid owner join)
    = (map EvOut (map (noop_message join owner uid)
                    (filter (is_noop join owner uid) groups)),
       Returned (filter (fun g => negb (is_noop join owner uid g)) groups),
       w).
Proof.
  intros W h w groups uid o j. unfold filter_groups.
  apply (run_filter_groups_loop W h w uid o j groups []). constructor.
Qed.

Lemma resolving_nil : resolving [].
Proof. repeat split; auto. intros c x []. Qed.

Lemma resolving_app :
  forall t1 t2, resolving t1 -> resolving t2 -> resolving (t1 ++ t2)%list.
Proof.
  intros t1 t2 (O1 & M1 & F1) (O2 & M2 & F2). unfold resolving. observe.
  rewrite O1, O2, M1, M2. repeat split; auto.
  intros c x H. apply in_app_or in H. destruct H; eauto.
Qed.

Lemma resolving_call :
  forall c (r : result (resp c)),
    is_mutation c = false -> resolving [EvCall c r].
Proof.
  intros c r H. unfold resolving. cbn. rewrite H. repeat split; auto.
  intros c' x. destruct r; cbn; [intros []|].
  intros [E|[]]. inversion E; subst. exact H.
Qed.

Lemma run_parse_userid :
  forall (W : Type) (h : env W) (w w' : W) own_name args t o,
    run h w (parse_userid own_name args) = (t, o, w') ->
    resolving t /\ collect found_group t = []
    /\ match o with
       | Returned u => collect resolved_user t = [u] /\ failures t = []
       | Uncaught x => exists c, In (c, x) (failures t)
       end.
Proof.
  intros W h w w' own_name args t o R.
  unfold parse_userid, find_user_by_id, find_user_by_name, call in R.
  destruct (ga_id args) as [[|ch u]|]; cbn [if_truthy] in R;
    [destruct (ga_name args) as [[|ch' u']|]; cbn [if_truthy] in R | |
     destruct (ga_name args) as [[|ch' u']|]; cbn [if_truthy] in R];
    cbn in R;
    match type of R with
    | context [h ?c ?w] => destruct (h c w) as [[v|x] w1]
    end; inversion R; subst;
    (split; [apply resolving_call; reflexivity|]);
    (split; [reflexivity|]); cbn; eauto.
Qed.

Lemma run_list_groups_loop :
  forall (W : Type) (h : env W) names (w w' : W) acc t o,
    run h w (list_groups_loop names acc) = (t, o, w') ->
    resolving t /\ collect resolved_user t = []
    /\ (List.length (collect found_group t) <= List.length names)%nat
    /\ match o with
       | Returned gs => gs = (acc ++ collect found_group t)%list /\ failures t = []
       | Uncaught x => exists c, In (c, x) (failures t)
       end.
Proof.
  intros W h names. induction names as [|name names IH]; intros w w' acc t o R.
  - cbn in R. inversion R; subst. split; [apply resolving_nil|].
    cbn. rewrite app_nil_r. auto.
  - cbn [list_groups_loop] in R. unfold find_group, call in R. cbn in R.
    destruct (h (FindGroup name false) w) as [[[gid [g|]]|x] w1]; cbn in R.
    + destruct (run h w1 (list_groups_loop names (append acc g)))
        as [[t1 o1] w2] eqn:R1.
      inversion R; subst. apply IH in R1.
      destruct R1 as (Q & U & L & O).
      split; [apply (resolving_app [_] t1); [now apply resolving_call|exact Q]|].
      split; [rewrite collect_skip by reflexivity; exact U|].
      split.
      { change (collect found_group
                  (EvCall (FindGroup name false) (Ok (gid, Some g)) :: t1))
          with (g :: collect found_group t1). cbn [List.length]. lia. }
      destruct o as [gs|x].
      * destruct O as [-> F]. split; [|exact F].
        unfold append. rewrite <- app_assoc. reflexivity.
      * destruct O as (c & HIn). exists c. exact HIn.
    + destruct (run h w1 (list_groups_loop names acc)) as [[t1 o1] w2] eqn:R1.
      inversion R; subst. apply IH in R1.
      destruct R1 as (Q & U & L & O).
      split; [apply (resolving_app [_] t1); [now apply resolving_call|exact Q]|].
      split; [rewrite collect_skip by reflexivity; exact U|].
      split.
      { rewrite collect_skip by reflexivity. cbn [List.length]. lia. }
      destruct o as [gs|x].
      * destruct O as [-> F]. split; [|exact F].
        rewrite collect_skip by reflexivity. reflexivity.
      * destruct O as (c & HIn). exists c. exact HIn.
    + inversion R; subst.
      split; [now apply resolving_call|]. split; [reflexivity|].
      split; [cbn; lia|]. cbn. eauto.
Qed.

Lemma run_list_groups :
  forall (W : Type) (h : env W) names (w w' : W) t o,
    run h w (list_groups names) = (t, o, w') ->
    resolving t /\ collect resolved_user t = []
    /\ (List.length (collect found_group t) <= List.length names)%nat
    /\ match o with
       | Returned gs => gs = collect found_group t /\ failures t = []
       | Uncaught x => exists c, In (c, x) (failures t)
       end.
Proof.
  intros W h names w w' t o R. unfold list_groups in R.
  rewrite run_bind in R.
  destruct (run h w (list_groups_loop names [])) as [[t1 o1] w1] eqn:R1.
  apply run_list_groups_loop in R1. destruct R1 as (Q & U & L & O).
  destruct o1 as [gs|x].
  - destruct O as [-> F]. cbn [app] in R.
    destruct (collect found_group t1) as [|g gs] eqn:G.
    + unfold error_no_group_found, call in R. cbn in R.
      destruct (h (ErrorNoGroupFound true) w1) as [[[]|x] w2]; cbn in R;
        inversion R; subst.
      * split; [apply resolving_app; [exact Q|now apply resolving_call]|].
        observe. rewrite U, G, F. cbn. auto.
      * split; [apply resolving_app; [exact Q|now apply resolving_call]|].
        observe. rewrite U, G, F. cbn. split; [auto|]. split; [lia|]. eauto.
    + cbn in R. inversion R; subst. rewrite app_nil_r.
      rewrite G. auto.
  - inversion R; subst. auto.
Qed.

Lemma mutation_observed :
  forall c (r : result (resp c)),
    is_mutation c = true ->
    resolved_user (EvCall c r) = None /\ found_group (EvCall c r) = None.
Proof.
  intros c r H. destruct c; try discriminate H; auto.
Qed.

Lemma membership_call_mutation :
  forall j o uid g, is_mutation (membership_call j o uid g) = true.
Proof. intros [] [] uid g; reflexivity. Qed.

Lemma membership_call_group :
  forall j o uid g, mutated_group (membership_call j o uid g) = Some g.
Proof. intros [] [] uid g; reflexivity. Qed.

(** The loop that issues one membership call per remaining group. *)
Lemma run_for_each_calls :
  forall (W : Type) (h : env W) (mk : ExperimenterGroup -> op)
         (body : ExperimenterGroup -> Prog unit),
    (forall g, is_mutation (mk g) = true) ->
    (forall g w,
        run h w (body g)
        = let (r, w1) := h (mk g) w in
          ([EvCall (mk g) r],
           match r with Ok _ => Returned tt | Raised x => Uncaught x end, w1)) ->
    forall gs (w w' : W) t o,
      run h w (for_each gs body) = (t, o, w') ->
      outs t = [] /\ collect resolved_user t = [] /\ collect found_group t = []
      /\ (forall c x, In (c, x) (failures t) -> is_mutation c = true)
      /\ (failures t = [] -> o = Returned tt)
      /\ exists done rest,
           gs = (done ++ rest)%list /\ calls t = map mk done
           /\ (failures t = [] -> rest = []).
Proof.
  intros W h mk body Hm Hb gs.
  induction gs as [|g gs IH]; intros w w' t o R.
  - cbn in R. inversion R; subst. cbn. splits.
    exists [], []. auto.
  - cbn [for_each] in R. rewrite run_bind, Hb in R.
    destruct (mutation_observed (mk g)) with (r := fst (h (mk g) w))
      as [U G]; [apply Hm|].
    destruct (h (mk g) w) as [[v|x] w1]; cbn [fst] in *.
    + destruct (run h w1 (for_each gs body)) as [[t1 o1] w2] eqn:R1.
      inversion R; subst. apply IH in R1.
      destruct R1 as (O & U1 & G1 & F & T & done & rest & -> & C & E).
      cbn [app]. rewrite outs_call, calls_call, !collect_skip by assumption.
      change (failures (EvCall (mk g) (Ok v) :: t1)) with (failures t1).
      splits.
      exists (g :: done), rest. cbn [app map]. rewrite C. auto.
    + inversion R; subst. cbn [app].
      rewrite outs_call, calls_call, !collect_skip by assumption.
      change (failures [EvCall (mk g) (Raised x)]) with [(mk g, x)].
      splits. split; [|split].
      * intros c y [K|[]]. inversion K; subst. apply Hm.
      * intros K. discriminate K.
      * exists [g], gs. cbn. splits. intros K. discriminate K.
Qed.

Lemma filter_mutation_all :
  forall j o uid l,
    filter is_mutation (map (membership_call j o uid) l)
    = map (membership_call j o uid) l.
Proof.
  intros j o uid l. induction l as [|g l IH]; cbn; [reflexivity|].
  rewrite membership_call_mutation. now rewrite IH.
Qed.

Lemma run_group_command :
  forall (W : Type) (h : env W) (j : bool)
         (body : Z -> ExperimenterGroup -> Prog unit) own_name args,
    (forall uid g w,
        run h w (body uid g)
        = let (r, w1) := h (membership_call j (ga_as_owner args) uid g) w in
          ([EvCall (membership_call j (ga_as_owner args) uid g) r],
           match r with Ok _ => Returned tt | Raised x => Uncaught x end, w1)) ->
    forall (w w' : W) t o,
      run h w (user <- parse_userid own_name args ;;
               groups <- list_groups (ga_GROUP args) ;;
               groups <- filter_groups groups (fst user) (ga_as_owner args) j ;;
               for_each groups (body (fst user))) = (t, o, w') ->
      group_trace j args t /\ (failures t = [] -> o = Returned tt).
Proof.
  intros W h j body own_name args Hb w w' t o R.
  rewrite run_bind in R.
  destruct (run h w (parse_userid own_name args)) as [[t1 o1] w1] eqn:R1.
  apply run_parse_userid in R1. destruct R1 as ((O1 & M1 & F1) & G1 & P).
  destruct o1 as [user|x].
  2: { inversion R; subst. destruct P as (c & HIn). split.
       - left. splits. eauto.
       - intros E. rewrite E in HIn. contradiction. }
  destruct P as [U1 E1]. rewrite run_bind in R.
  destruct (run h w1 (list_groups (ga_GROUP args))) as [[t2 o2] w2] eqn:R2.
  apply run_list_groups in R2. destruct R2 as ((O2 & M2 & F2) & U2 & L2 & P).
  destruct o2 as [groups|x].
  2: { inversion R; subst. destruct P as (c & HIn). split.
       - left. observe. rewrite O1, O2, M1, M2. splits.
         exists c, x. split; [apply in_or_app; now right|eauto].
       - intros E. rewrite failures_app, E1 in E. cbn [app] in E.
         rewrite E in HIn. contradiction. }
  destruct P as [-> E2]. rewrite run_bind, run_filter_groups in R.
  destruct (run h w2 (for_each
              (filter (fun g => negb (is_noop j (ga_as_owner args) (fst user) g))
                 (collect found_group t2)) (body (fst user))))
    as [[t4 o4] w4] eqn:R4.
  apply (run_for_each_calls W h
           (membership_call j (ga_as_owner args) (fst user))) in R4;
    [|intros; apply membership_call_mutation|intros; apply Hb].
  destruct R4 as (O4 & U4 & G4 & F4 & T4 & done & rest & D & C4 & E4).
  inversion R; subst. clear R.
  assert (Z1 : forall l, calls (map EvOut l) = []) by (induction l; auto).
  assert (Z2 : forall l, failures (map EvOut l) = []) by (induction l; auto).
  assert (Z3 : forall A (f : event -> option A) l,
             (forall s, f (EvOut s) = None) -> collect f (map EvOut l) = [])
    by (intros A f l Hf; induction l as [|s l IH]; auto;
        cbn [map]; rewrite collect_skip; auto).
  split.
  - right.
    exists user, (collect found_group t2), done, rest. cbn zeta. observe.
    rewrite U1, U2, U4, G1, G4, O1, O2, O4, M1, M2, C4, E1, E2.
    rewrite outs_map_EvOut, filter_mutation_all.
    rewrite Z1, Z2, !Z3 by reflexivity. cbn [app filter].
    rewrite !app_nil_r. splits. auto.
  - observe. rewrite E1, E2, Z2. cbn [app]. exact T4.
Qed.

Lemma run_joingroup_body :
  forall (W : Type) (h : env W) (w : W) as_owner uid g,
    run h w (if as_owner : bool
             then addownersbyid g [uid]
             else addusersbyid g [uid])
    = let (r, w1) := h (membership_call true as_owner uid g) w in
      ([EvCall (membership_call true as_owner uid g) r],
       match r with Ok _ => Returned tt | Raised x => Uncaught x end, w1).
Proof.
  intros W h w as_owner uid g. unfold addownersbyid, addusersbyid, call.
  destruct as_owner; cbn;
    match goal with
    | |- context [h ?c ?w] => destruct (h c w) as [[[]|x] w1]
    end; reflexivity.
Qed.

Lemma run_leavegroup_body :
  forall (W : Type) (h : env W) (w : W) as_owner uid g,
    run h w (if as_owner : bool
             then removeownersbyid g [uid]
             else removeusersbyid g [uid])
    = let (r, w1) := h (membership_call false as_owner uid g) w in
      ([EvCall (membership_call false as_owner uid g) r],
       match r with Ok _ => Returned tt | Raised x => Uncaught x end, w1).
Proof.
  intros W h w as_owner uid g. unfold removeownersbyid, removeusersbyid, call.
  destruct as_owner; cbn;
    match goal with
    | |- context [h ?c ?w] => destruct (h c w) as [[[]|x] w1]
    end; reflexivity.
Qed.

(** The same commands, from the answers of the environment. *)

Lemma run_issue :
  forall (W : Type) (h : env W) (mk : ExperimenterGroup -> op)
         (body : ExperimenterGroup -> Prog unit),
    (forall g w,
        run h w (body g)
        = let (r, w1) := h (mk g) w in
          ([EvCall (mk g) r],
           match r with Ok _ => Returned tt | Raised x => Uncaught x end, w1)) ->
    forall gs (w : W),
      fst (run h w (for_each gs body))
      = (until_failure (fst (replies h w (map mk gs))),
         first_failure (fst (replies h w (map mk gs)))).
Proof.
  intros W h mk body Hb gs. induction gs as [|g gs IH]; intros w.
  - reflexivity.
  - cbn [for_each map]. rewrite run_bind, Hb, replies_cons.
    destruct (h (mk g) w) as [[v|x] w1].
    + specialize (IH w1).
      destruct (run h w1 (for_each gs body)) as [[t1 o1] w2].
      destruct (replies h w1 (map mk gs)) as [tr wr]. cbn [fst] in *.
      inversion IH; subst. reflexivity.
    + destruct (replies h w1 (map mk gs)) as [tr wr]. reflexivity.
Qed.

Lemma run_parse_userid_resolved :
  forall (W : Type) (h : env W) (w : W) own_name args user,
    collect resolved_user (fst (replies h w [userid_call own_name args]))
    = [user] ->
    run h w (parse_userid own_name args)
    = (fst (replies h w [userid_call own_name args]), Returned user,
       snd (replies h w [userid_call own_name args])).
Proof.
  intros W h w own_name args user.
  unfold parse_userid, userid_call, find_user_by_id, find_user_by_name.
  destruct (ga_id args) as [[|ch u]|]; cbn [if_truthy];
    [destruct (ga_name args) as [[|ch' u']|]; cbn [if_truthy] | |
     destruct (ga_name args) as [[|ch' u']|]; cbn [if_truthy]];
    unfold call; cbn [run replies];
    match goal with
    | |- context [h ?c w] => destruct (h c w) as [[v|x] w1]
    end;
    cbn; intros H; inversion H; reflexivity.
Qed.

Lemma userid_call_observed :
  forall own_name args (r : result (resp (userid_call own_name args))),
    found_group (EvCall (userid_call own_name args) r) = None
    /\ mutated_group (userid_call own_name args) = None.
Proof.
  intros own_name args. unfold userid_call.
  destruct (ga_id args) as [[|ch u]|]; cbn [if_truthy];
    [destruct (ga_name args) as [[|ch' u']|]; cbn [if_truthy] | |
     destruct (ga_name args) as [[|ch' u']|]; cbn [if_truthy]];
    intros r; split; reflexivity.
Qed.

Lemma run_list_groups_loop_resolved :
  forall (W : Type) (h : env W) names (w : W) acc,
    failures (fst (replies h w (map (fun group => FindGroup group false) names)))
    = [] ->
    run h w (list_groups_loop names acc)
    = (fst (replies h w (map (fun group => FindGroup group false) names)),
       Returned
         (acc ++ collect found_group
                   (fst (replies h w
                           (map (fun group => FindGroup group false) names))))%list,
       snd (replies h w (map (fun group => FindGroup group false) names))).
Proof.
  intros W h names. induction names as [|name names IH]; intros w acc.
  - intros _. cbn. now rewrite app_nil_r.
  - cbn [list_groups_loop map]. unfold find_group, call.
    rewrite run_bind, replies_cons. cbn [run].
    destruct (h (FindGroup name false) w) as [[[gid [g|]]|x] w1];
      cbn [run snd app].
    + specialize (IH w1 (append acc g)).
      destruct (replies h w1 (map (fun group => FindGroup group false) names))
        as [t1 w2]. cbn [fst snd] in *.
      intros F. rewrite IH by exact F. unfold append.
      rewrite <- app_assoc. reflexivity.
    + specialize (IH w1 acc).
      destruct (replies h w1 (map (fun group => FindGroup group false) names))
        as [t1 w2]. cbn [fst snd] in *.
      intros F. rewrite IH by exact F. reflexivity.
    + destruct (replies h w1 (map (fun group => FindGroup group false) names))
        as [t1 w2]. intros F. discriminate F.
Qed.

Lemma run_list_groups_resolved :
  forall (W : Type) (h : env W) names (w : W),
    failures (fst (replies h w (map (fun group => FindGroup group false) names)))
    = [] ->
    collect found_group
      (fst (replies h w (map (fun group => FindGroup group false) names)))
    <> [] ->
    run h w (list_groups names)
    = (fst (replies h w (map (fun group => FindGroup group false) names)),
       Returned
         (collect found_group
            (fst (replies h w (map (fun group => FindGroup group false) names)))),
       snd (replies h w (map (fun group => FindGroup group false) names))).
Proof.
  intros W h names w F N. unfold list_groups.
  rewrite run_bind, run_list_groups_loop_resolved by exact F. cbn [app].
  destruct (collect found_group
              (fst (replies h w
                      (map (fun group => FindGroup group false) names))))
    as [|g gs]; [now destruct N|].
  cbn. now rewrite app_nil_r.
Qed.

(** What the resolution of a group command consists of. *)
Lemma resolution_split :
  forall (W : Type) (h : env W) (w : W) own_name args user,
    failures (fst (resolution h w own_name args)) = [] ->
    collect resolved_user (fst (resolution h w own_name args)) = [user] ->
    let ru := replies h w [userid_call own_name args] in
    let rg := replies h (snd ru)
                (map (fun group => FindGroup group false) (ga_GROUP args)) in
    resolution h w own_name args = ((fst ru ++ fst rg)%list, snd rg)
    /\ collect resolved_user (fst ru) = [user]
    /\ failures (fst rg) = []
    /\ collect found_group (fst (resolution h w own_name args))
       = collect found_group (fst rg).
Proof.
  intros W h w own_name args user. unfold resolution.
  change (userid_call own_name args
          :: map (fun group => FindGroup group false) (ga_GROUP args))
    with ([userid_call own_name args]
          ++ map (fun group => FindGroup group false) (ga_GROUP args))%list.
  rewrite replies_app. cbn zeta.
  destruct (replies h w [userid_call own_name args]) as [tu w1] eqn:RU.
  pose proof (collect_replies _ resolved_user W h
                (map (fun group => FindGroup group false) (ga_GROUP args)) w1) as U.
  destruct (replies h w1
              (map (fun group => FindGroup group false) (ga_GROUP args)))
    as [tg w2] eqn:RG. cbn [fst snd] in *. rewrite !RG. cbn [fst snd].
  rewrite failures_app, !collect_app. intros F Hu.
  apply app_eq_nil in F. destruct F as [_ F].
  rewrite U in Hu.
  2: { intros c r K. apply in_map_iff in K. destruct K as (n & <- & _).
       reflexivity. }
  rewrite app_nil_r in Hu. splits.
  cbn [replies] in RU. destruct (h (userid_call own_name args) w) as [r0 w0].
  inversion RU; subst. rewrite collect_skip; [reflexivity|].
  apply userid_call_observed.
Qed.

Lemma run_group_command_resolved :
  forall (W : Type) (h : env W) (j : bool)
         (body : Z -> ExperimenterGroup -> Prog unit) own_name args,
    (forall uid g w,
        run h w (body uid g)
        = let (r, w1) := h (membership_call j (ga_as_owner args) uid g) w in
          ([EvCall (membership_call j (ga_as_owner args) uid g) r],
           match r with Ok _ => Returned tt | Raised x => Uncaught x end, w1)) ->
    forall (w : W) user,
      let r := resolution h w own_name args in
      let groups := collect found_group (fst r) in
      let issued :=
        fst (replies h (snd r)
               (map (membership_call j (ga_as_owner args) (fst user))
                  (filter (fun g => negb (is_noop j (ga_as_owner args) (fst user) g))
                     groups))) in
      failures (fst r) = [] ->
      collect resolved_user (fst r) = [user] ->
      groups <> [] ->
      fst (run h w (user <- parse_userid own_name args ;;
                    groups <- list_groups (ga_GROUP args) ;;
                    groups <- filter_groups groups (fst user) (ga_as_owner args) j ;;
                    for_each groups (body (fst user))))
      = ((fst r
          ++ map EvOut (map (noop_message j (ga_as_owner args) (fst user))
                          (filter (is_noop j (ga_as_owner args) (fst user)) groups))
          ++ until_failure issued)%list,
         first_failure issued).
Proof.
  intros W h j body own_name args Hb w user r groups issued F U N.
  destruct (resolution_split W h w own_name args user F U) as (E & Uu & Fg & G).
  unfold issued, groups, r in *. clear issued groups r.
  rewrite G in *. rewrite E. cbn [fst snd]. clear E G F U.
  rewrite run_bind, (run_parse_userid_resolved W h w own_name args user Uu).
  rewrite run_bind, run_list_groups_resolved by assumption.
  rewrite run_bind, run_filter_groups.
  match goal with
  | |- context [run h ?w2 (for_each ?gs ?b)] =>
      pose proof (run_issue W h
                    (membership_call j (ga_as_owner args) (fst user))
                    (body (fst user)) (Hb (fst user)) gs w2) as K;
      destruct (run h w2 (for_each gs b)) as [[t4 o4] w4]
  end.
  cbn [fst] in K. inversion K; subst. cbn [fst].
  now rewrite <- !app_assoc.
Qed.

Lemma run_joingroup_full :
  forall (W : Type) (h : env W) (w : W) own_name args,
    group_trace true args (trace h w (joingroup own_name args))
    /\ (failures (trace h w (joingroup own_name args)) = [] ->
        outcome_of h w (joingroup own_name args) = Returned tt).
Proof.
  intros W h w own_name args. unfold trace, outcome_of.
  destruct (run h w (joingroup own_name args)) as [[t o] w'] eqn:R.
  cbn [fst snd]. unfold joingroup in R.
  eapply (run_group_command W h true
            (fun uid group =>
               if ga_as_owner args
               then addownersbyid group [uid]
               else addusersbyid group [uid])); [|exact R].
  intros uid g w0. apply run_joingroup_body.
Qed.

Lemma run_leavegroup_full :
  forall (W : Type) (h : env W) (w : W) own_name args,
    group_trace false args (trace h w (leavegroup own_name args))
    /\ (failures (trace h w (leavegroup own_name args)) = [] ->
        outcome_of h w (leavegroup own_name args) = Returned tt).
Proof.
  intros W h w own_name args. unfold trace, outcome_of.
  destruct (run h w (leavegroup own_name args)) as [[t o] w'] eqn:R.
  cbn [fst snd]. unfold leavegroup in R.
  eapply (run_group_command W h false
            (fun uid group =>
               if ga_as_owner args
               then removeownersbyid group [uid]
               else removeusersbyid group [uid])); [|exact R].
  intros uid g w0. apply run_leavegroup_body.
Qed.

Lemma run_joingroup :
  forall (W : Type) (h : env W) (w : W) own_name args,
    group_trace true args (trace h w (joingroup own_name args)).
Proof. intros. apply run_joingroup_full. Qed.

Lemma run_leavegroup :
  forall (W : Type) (h : env W) (w : W) own_name args,
    group_trace false args (trace h w (leavegroup own_name args)).
Proof. intros. apply run_leavegroup_full. Qed.

Lemma filter_all :
  forall (A : Type) (f : A -> bool) (l : list A),
    (forall a, In a l -> f a = true) -> filter f l = l.
Proof.
  intros A f l. induction l as [|a l IH]; intros H; [reflexivity|].
  cbn [filter]. rewrite (H a (or_introl eq_refl)).
  rewrite IH; [reflexivity|]. intros b K. apply H. now right.
Qed.

Lemma filter_negb_none :
  forall (A : Type) (f : A -> bool) (l : list A),
    (forall a, In a l -> f a = true) -> filter (fun a => negb (f a)) l = [].
Proof.
  intros A f l. induction l as [|a l IH]; intros H; [reflexivity|].
  cbn [filter]. rewrite (H a (or_introl eq_refl)). cbn [negb].
  apply IH. intros b K. apply H. now right.
Qed.

Lemma outs_until_failure :
  forall t, outs t = [] -> outs (until_failure t) = [].
Proof.
  induction t as [|e t IH]; [reflexivity|]. intros H. cbn [until_failure].
  destruct e as [s|s|s|c [v|x]]; cbn in H |- *; try discriminate H; auto.
Qed.

(** A group command whose user and groups resolve: its trace is the
    resolution, the messages about the groups it drops, and the membership
    calls for the groups it keeps, up to the first that raises. *)
Lemma group_command_resolved :
  forall (W : Type) (h : env W) (j : bool) (w : W) own_name args user,
    let r := resolution h w own_name args in
    let groups := collect found_group (fst r) in
    let issued :=
      fst (replies h (snd r)
             (map (membership_call j (ga_as_owner args) (fst user))
                (filter (fun g => negb (is_noop j (ga_as_owner args) (fst user) g))
                   groups))) in
    failures (fst r) = [] ->
    collect resolved_user (fst r) = [user] ->
    groups <> [] ->
    trace h w (group_command j own_name args)
    = (fst r
       ++ map EvOut (map (noop_message j (ga_as_owner args) (fst user))
                       (filter (is_noop j (ga_as_owner args) (fst user)) groups))
       ++ until_failure issued)%list
    /\ outcome_of h w (group_command j own_name args) = first_failure issued.
Proof.
  intros W h j w own_name args user r groups issued F U N.
  unfold trace, outcome_of, group_command.
  destruct j.
  - unfold joingroup.
    rewrite (run_group_command_resolved W h true
               (fun uid group =>
                  if ga_as_owner args
                  then addownersbyid group [uid]
                  else addusersbyid group [uid]) own_name args
               (fun uid g w0 => run_joingroup_body W h w0 (ga_as_owner args) uid g)
               w user F U N).
    split; reflexivity.
  - unfold leavegroup.
    rewrite (run_group_command_resolved W h false
               (fun uid group =>
                  if ga_as_owner args
                  then removeownersbyid group [uid]
                  else removeusersbyid group [uid]) own_name args
               (fun uid g w0 => run_leavegroup_body W h w0 (ga_as_owner args) uid g)
               w user F U N).
    split; reflexivity.
Qed.

(** What can be observed of such an invocation. *)
Lemma group_command_observed :
  forall (W : Type) (h : env W) (j : bool) (w : W) own_name args user,
    let r := resolution h w own_name args in
    let groups := collect found_group (fst r) in
    let o := ga_as_owner args in
    let uid := fst user in
    let issued :=
      fst (replies h (snd r)
             (map (membership_call j o uid)
                (filter (fun g => negb (is_noop j o uid g)) groups))) in
    let t := trace h w (group_command j own_name args) in
    failures (fst r) = [] ->
    collect resolved_user (fst r) = [user] ->
    groups <> [] ->
    outs t = map (noop_message j o uid) (filter (is_noop j o uid) groups)
    /\ filter is_mutation (calls t) = calls (until_failure issued)
    /\ failures t = failures (until_failure issued)
    /\ outcome_of h w (group_command j own_name args) = first_failure issued
    /\ (forall c g, In c (calls t) -> mutated_group c = Some g ->
                    In g groups /\ is_noop j o uid g = false).
Proof.
  intros W h j w own_name args user r groups o uid issued t F U N.
  destruct (group_command_resolved W h j w own_name args user F U N) as [T O].
  fold r groups o uid issued t in T, O.
  assert (Cr : calls (fst r)
               = userid_call own_name args
                 :: map (fun group => FindGroup group false) (ga_GROUP args))
    by apply calls_replies.
  assert (Mr : forall c, In c (calls (fst r)) -> mutated_group c = None).
  { intros c K. rewrite Cr in K. destruct K as [<-|K].
    - apply (userid_call_observed own_name args (Raised (OtherException EmptyString))).
    - apply in_map_iff in K. destruct K as (n & <- & _). reflexivity. }
  assert (Ci : forall c, In c (calls (until_failure issued)) ->
                         exists g, c = membership_call j o uid g
                                   /\ In g groups /\ is_noop j o uid g = false).
  { intros c K. apply until_failure_calls in K. unfold issued in K.
    rewrite calls_replies in K. apply in_map_iff in K.
    destruct K as (g & <- & K). apply filter_In in K. destruct K as [K1 K2].
    exists g. split; [reflexivity|]. split; [exact K1|].
    now destruct (is_noop j o uid g). }
  assert (Or : outs (fst r) = []) by apply outs_replies.
  assert (Oi : outs (until_failure issued) = [])
    by apply outs_until_failure, outs_replies.
  rewrite T. observe. rewrite F, Or, outs_map_EvOut.
  rewrite calls_map_EvOut, failures_map_EvOut. cbn [app filter].
  rewrite Oi, app_nil_r.
  assert (Fr : filter is_mutation (calls (fst r)) = []).
  { rewrite Cr. cbn [filter].
    replace (is_mutation (userid_call own_name args)) with false.
    - clear. induction (ga_GROUP args) as [|n l IH]; [reflexivity|exact IH].
    - pose proof (Mr (userid_call own_name args)) as K. rewrite Cr in K.
      specialize (K (or_introl eq_refl)).
      destruct (userid_call own_name args); try reflexivity; discriminate K. }
  rewrite Fr. cbn [app].
  split; [reflexivity|]. split.
  { apply filter_all. intros c K. destruct (Ci c K) as (g & -> & _).
    apply membership_call_mutation. }
  split; [reflexivity|]. split; [exact O|].
  intros c g K Hg. apply in_app_or in K. destruct K as [K|K].
  - rewrite (Mr c K) in Hg. discriminate Hg.
  - destruct (Ci c K) as (g' & -> & K1 & K2).
    rewrite membership_call_group in Hg. injection Hg as <-. auto.
Qed.

(** A group that the filter keeps receives its membership call, unless a
    membership call has raised. *)
Lemma group_command_issues :
  forall (W : Type) (h : env W) (j : bool) (w : W) own_name args user g,
    let r := resolution h w own_name args in
    let t := trace h w (group_command j own_name args) in
    failures (fst r) = [] ->
    collect resolved_user (fst r) = [user] ->
    In g (collect found_group (fst r)) ->
    is_noop j (ga_as_owner args) (fst user) g = false ->
    In (membership_call j (ga_as_owner args) (fst user) g) (calls t)
    \/ exists c x, is_mutation c = true /\ In (c, x) (failures t).
Proof.
  intros W h j w own_name args user g r t F U Hg Hn.
  assert (N : collect found_group (fst r) <> [])
    by (intros E; rewrite E in Hg; exact Hg).
  destruct (group_command_observed W h j w own_name args user F U N)
    as (_ & M & Fl & _ & _).
  fold r t in M, Fl.
  match type of M with
  | _ = calls (until_failure ?i) => set (issued := i) in *
  end.
  assert (K : In (membership_call j (ga_as_owner args) (fst user) g)
                (calls issued)).
  { unfold issued. rewrite calls_replies. apply in_map, filter_In.
    split; [exact Hg|]. now rewrite Hn. }
  destruct (until_failure_reaches issued _ K) as [K'|K'].
  - left. rewrite <- M in K'. apply filter_In in K'. exact (proj1 K').
  - right. rewrite <- Fl in K'.
    destruct (failures t) as [|[c x] l] eqn:E; [now destruct K'|].
    exists c, x. split; [|now left].
    assert (Hc : In c (calls (until_failure issued)))
      by (apply (failures_calls _ c x); rewrite <- Fl; now left).
    apply until_failure_calls in Hc. unfold issued in Hc.
    rewrite calls_replies in Hc. apply in_map_iff in Hc.
    destruct Hc as (g' & <- & _). apply membership_call_mutation.
Qed.

(** C8.  Let the environment resolve the user and at least one group.  In
    [joingroup], for every resolved group whose id list of the requested
    role has the user, the message "is already in" ("is already owner of"
    for the owner role) is printed and no membership call about that group
    is issued; when this holds of all the resolved groups, as in a repeated
    [joingroup], no membership call is issued at all and the command
    returns.  In [leavegroup], for every resolved group whose id list of the
    requested role lacks the user, the message "is not in" ("is not owner
    of") is printed and no membership call about that group is issued; when
    this holds of all the resolved groups the command issues no membership
    call and returns, and in any case it returns unless a membership call
    raises. *)
Theorem group_change_noop :
  forall (W : Type) (h : env W) (w : W) own_name args user,
    let r := resolution h w own_name args in
    let groups := collect found_group (fst r) in
    let uid := fst user in
    let as_owner := ga_as_owner args in
    let relation := if as_owner then "owner of" else "in" in
    let tj := trace h w (joingroup own_name args) in
    let tl := trace h w (leavegroup own_name args) in
    failures (fst r) = [] ->
    collect resolved_user (fst r) = [user] ->
    groups <> [] ->
    (forall g,
        In g groups -> mem uid (relation_ids as_owner g) = true ->
        In (str uid ++ " is already " ++ relation ++ " group " ++ str (group_id g))
           (outs tj)
        /\ (forall c, In c (calls tj) -> mutated_group c <> Some g))
    /\ ((forall g, In g groups -> mem uid (relation_ids as_owner g) = true) ->
        filter is_mutation (calls tj) = []
        /\ outcome_of h w (joingroup own_name args) = Returned tt)
    /\ (forall g,
          In g groups -> mem uid (relation_ids as_owner g) = false ->
          In (str uid ++ " is not " ++ relation ++ " group " ++ str (group_id g))
             (outs tl)
          /\ (forall c, In c (calls tl) -> mutated_group c <> Some g))
    /\ ((forall g, In g groups -> mem uid (relation_ids as_owner g) = false) ->
        filter is_mutation (calls tl) = []
        /\ outcome_of h w (leavegroup own_name args) = Returned tt)
    /\ (outcome_of h w (leavegroup own_name args) = Returned tt
        \/ exists c x, is_mutation c = true /\ In (c, x) (failures tl)).
Proof.
  intros W h w own_name args user r groups uid as_owner relation tj tl F U N.
  assert (K : forall j,
             let t := trace h w (group_command j own_name args) in
             (forall g, In g groups -> is_noop j as_owner uid g = true ->
                In (noop_message j as_owner uid g) (outs t)
                /\ (forall c, In c (calls t) -> mutated_group c <> Some g))
             /\ ((forall g, In g groups -> is_noop j as_owner uid g = true) ->
                 filter is_mutation (calls t) = []
                 /\ outcome_of h w (group_command j own_name args) = Returned tt)
             /\ (outcome_of h w (group_command j own_name args) = Returned tt
                 \/ exists c x, is_mutation c = true /\ In (c, x) (failures t))).
  { intros j t.
    destruct (group_command_observed W h j w own_name args user F U N)
      as (O & M & Fl & Oc & G).
    fold r groups as_owner uid t in O, M, Fl, Oc, G.
    split; [|split].
    - intros g Hg Hn. split.
      + rewrite O. apply in_map, filter_In. auto.
      + intros c Hc E. destruct (G c g Hc E) as [_ E']. congruence.
    - intros Hn.
      assert (E : filter (fun g => negb (is_noop j as_owner uid g)) groups = [])
        by (apply filter_negb_none; exact Hn).
      rewrite M, Oc, E. split; reflexivity.
    - rewrite Oc, Fl, <- first_failure_until. unfold first_failure.
      match goal with
      | |- context [failures (until_failure ?i)] =>
          destruct (failures (until_failure i)) as [|[c x] l] eqn:E;
          [ left; reflexivity | right; exists c, x; split; [|now left] ];
          assert (Hc : In c (calls (until_failure i)))
            by (apply (failures_calls _ c x); rewrite E; now left)
      end.
      apply until_failure_calls in Hc. rewrite calls_replies in Hc.
      apply in_map_iff in Hc. destruct Hc as (g & <- & _).
      apply membership_call_mutation. }
  destruct (K true) as (J1 & J2 & _). destruct (K false) as (L1 & L2 & L3).
  unfold group_command, is_noop, noop_message in J1, J2, L1, L2, L3.
  cbn zeta in *. fold tj in J1, J2. fold tl in L1, L2, L3.
  split; [exact J1|]. split; [exact J2|]. split; [|split; [|exact L3]].
  - intros g Hg Hn. apply L1; [exact Hg|]. now rewrite Hn.
  - intros Hn. apply L2. intros g Hg. now rewrite (Hn g Hg).
Qed.

(** *** The remote calls of an invocation *)

Lemma lookups_prefix :
  forall names t o,
    lookups names t o ->
    exists rest,
      map LookupGroup names = (calls t ++ rest)%list
      /\ (forall gs, o = Returned gs -> rest = []).
Proof.
  induction 1 as [|name names g t gs L (rest & E & R)
                  |name names g t x L (rest & E & R)
                  |name names x].
  - exists []. auto.
  - exists rest. rewrite calls_call. cbn [map app]. rewrite E.
    split; [reflexivity|]. intros gs' _. now apply (R gs).
  - exists rest. rewrite calls_call. cbn [map app]. rewrite E.
    split; [reflexivity|]. intros gs' K. discriminate K.
  - exists (map LookupGroup names). split; [reflexivity|].
    intros gs' K. discriminate K.
Qed.

Lemma add_new_plan :
  forall args t o,
    add_new args t o ->
    let plan := (map LookupGroup (arg_member_of args) ++ [GetSecurityRoles])%list in
    (exists rest, plan = (calls t ++ rest)%list)
    \/ (exists c, is_creation c = true /\ calls t = (plan ++ [c])%list).
Proof.
  intros args t o H plan. unfold plan.
  destruct H as [tg x L Hx|tg x L Hx|tg gs x L
                |tg gs roles p sec i L M|tg gs roles p sec x L M];
    destruct (lookups_prefix _ _ _ L) as (rest & E & R); rewrite E.
  - left. exists (rest ++ [GetSecurityRoles])%list.
    rewrite calls_app. cbn [calls flat_map]. rewrite app_nil_r.
    now rewrite app_assoc.
  - left. exists (rest ++ [GetSecurityRoles])%list. now rewrite app_assoc.
  - left. exists []. rewrite (R gs eq_refl), calls_app, !app_nil_r. reflexivity.
  - right. exists (creation args p sec). split; [apply creation_is_creation|].
    rewrite (R gs eq_refl), calls_app, app_nil_r.
    change (calls [EvCall GetSecurityRoles (Ok roles);
                   creation_event args p sec (Ok i);
                   EvOut (added_message args i)])
      with (GetSecurityRoles
              :: calls ([creation_event args p sec (Ok i)]
                        ++ [EvOut (added_message args i)])).
    rewrite calls_app, calls_creation_event. cbn [calls flat_map app].
    now rewrite <- app_assoc.
  - right. exists (creation args p sec). split; [apply creation_is_creation|].
    rewrite (R gs eq_refl), !calls_app, app_nil_r.
    destruct (creation_failed_silent args x) as (-> & _).
    change (calls [EvCall GetSecurityRoles (Ok roles);
                   creation_event args p sec (Raised x)])
      with (GetSecurityRoles :: calls [creation_event args p sec (Raised x)]).
    rewrite calls_creation_event, app_nil_r. now rewrite <- app_assoc.
Qed.

Lemma failures_map_EvErr : forall l, failures (map EvErr l) = [].
Proof. induction l as [|s l IH]; [reflexivity|exact IH]. Qed.

Lemma email_remote_calls :
  forall (W : Type) (h : env W) (w : W) (args : EmailArgs),
    filter is_remote (calls (trace h w (email_ args))) = [LookupExperimenters]
    /\ stops_at_failure (trace h w (email_ args)) = true.
Proof.
  intros W h w args.
  destruct (h LookupExperimenters w) as [[users|x] w1] eqn:H.
  - rewrite (email_trace W h w w1 args users H).
    rewrite calls_call, calls_app, calls_map_EvOut, calls_map_EvErr.
    split; [reflexivity|]. apply stops_clean.
    rewrite failures_cons, failures_app, failures_map_EvOut, failures_map_EvErr.
    reflexivity.
  - unfold trace, email_, lookupExperimenters, call. cbn. rewrite H.
    split; reflexivity.
Qed.

Lemma list_remote_calls :
  forall (W : Type) (h : env W) (w : W),
    filter is_remote (calls (trace h w list_))
    = LookupExperimenters
      :: match fst (h LookupExperimenters w) with
         | Ok _ => [GetSecurityRoles]
         | Raised _ => []
         end
    /\ stops_at_failure (trace h w list_) = true.
Proof.
  intros W h w. unfold trace.
  unfold list_, lookupExperimenters, getSecurityRoles, out, call. cbn.
  destruct (h LookupExperimenters w) as [[users|x] w1]; cbn.
  - destruct (h GetSecurityRoles w1) as [[roles|x] w2]; cbn; split; reflexivity.
  - split; reflexivity.
Qed.

Lemma password_remote_calls :
  forall (W : Type) (h : env W) (w : W) own_name args,
    let t := trace h w (password own_name args) in
    (exists own_pw pw rest,
        [SetSecurityPassword own_pw;
         if_truthy (pa_username args)
           (fun u => ChangeUserPassword u pw) (ChangePassword pw)]
        = (filter is_remote (calls t) ++ rest)%list)
    /\ stops_at_failure t = true.
Proof.
  intros W h w own_name args. unfold trace. cbn zeta.
  destruct (run h w (password own_name args)) as [[t o] w'] eqn:R. cbn [fst].
  unfold password, _ask_for_password, setSecurityPassword, changePassword,
    changeUserPassword, out, dbg, die, call in R.
  destruct (pa_username args) as [[|ch u]|]; explore R h;
    (split; [|reflexivity]);
    first [ exists EmptyString, EmptyString; eexists; reflexivity
          | eexists; exists EmptyString; eexists; reflexivity
          | do 3 eexists; reflexivity ].
Qed.

Lemma lookups_stops :
  forall names t o, lookups names t o -> stops_at_failure t = true.
Proof.
  induction 1; auto.
Qed.

Lemma add_new_stops :
  forall args t o, add_new args t o -> stops_at_failure t = true.
Proof.
  intros args t o H.
  destruct H as [tg x L Hx|tg x L Hx|tg gs x L
                |tg gs roles p sec i L M|tg gs roles p sec x L M];
    pose proof (lookups_stops _ _ _ L) as S.
  - now apply stops_app_silent.
  - exact S.
  - destruct (lookups_returned _ _ _ L) as (_ & F & _).
    rewrite stops_app_clean by exact F. reflexivity.
  - destruct (lookups_returned _ _ _ L) as (_ & F & _).
    rewrite stops_app_clean by exact F.
    unfold creation_event. destruct (arg_userpassword args); reflexivity.
  - destruct (lookups_returned _ _ _ L) as (_ & F & _).
    rewrite stops_app_clean by exact F.
    unfold creation_event, creation_failed.
    destruct (arg_userpassword args); destruct x as [m|m|m|rc|m];
      try destruct (is_constraint_violation m); reflexivity.
Qed.

Lemma forallb_remote_lookups :
  forall names, forallb is_remote (map LookupGroup names) = true.
Proof. induction names as [|n l IH]; [reflexivity|exact IH]. Qed.

Lemma add_remote_calls :
  forall (W : Type) (h : env W) (w : W) (args : AddArgs),
    let t := trace h w (add args) in
    let plan := LookupExperimenter (arg_username args)
                :: (map LookupGroup (arg_member_of args)
                    ++ [GetSecurityRoles])%list in
    forallb is_remote (calls t) = true
    /\ ((exists rest, plan = (calls t ++ rest)%list)
        \/ (exists c, is_creation c = true /\ calls t = (plan ++ [c])%list))
    /\ stops_at_failure (tl t) = true.
Proof.
  intros W h w args. unfold trace.
  destruct (run h w (add args)) as [[t o] w'] eqn:R. cbn [fst].
  apply run_add in R. cbn zeta.
  assert (P : forall t' o', add_new args t' o' ->
              forallb is_remote (calls t') = true
              /\ ((exists rest,
                      (map LookupGroup (arg_member_of args) ++ [GetSecurityRoles])%list
                      = (calls t' ++ rest)%list)
                  \/ (exists c, is_creation c = true
                                /\ calls t'
                                   = ((map LookupGroup (arg_member_of args)
                                       ++ [GetSecurityRoles]) ++ [c])%list))
              /\ stops_at_failure t' = true).
  { intros t' o' A.
    assert (Fp : forallb is_remote
                   (map LookupGroup (arg_member_of args) ++ [GetSecurityRoles])%list
                 = true)
      by (rewrite forallb_app, forallb_remote_lookups; reflexivity).
    split; [|split; [exact (add_new_plan _ _ _ A)|exact (add_new_stops _ _ _ A)]].
    destruct (add_new_plan _ _ _ A) as [(rest & E)|(c & Hc & E)].
    - rewrite E, forallb_app in Fp. apply andb_true_iff in Fp. exact (proj1 Fp).
    - rewrite E, forallb_app, Fp. cbn.
      destruct c; try discriminate Hc; reflexivity. }
  destruct R as [usr I|usr I|x Hx|t o A|x t o Hx A].
  1-3: (split; [reflexivity|]); (split; [left; eexists; cbn; reflexivity|reflexivity]).
  - destruct (P _ _ A) as (F & Pl & S). rewrite calls_call. cbn [forallb is_remote tl].
    split; [exact F|]. split; [|exact S].
    destruct Pl as [(rest & E)|(c & Hc & E)].
    + left. exists rest. cbn [app]. now rewrite E.
    + right. exists c. split; [exact Hc|]. cbn [app]. now rewrite E.
  - destruct (P _ _ A) as (F & Pl & S). rewrite calls_call. cbn [forallb is_remote tl].
    split; [exact F|]. split; [|exact S].
    destruct Pl as [(rest & E)|(c & Hc & E)].
    + left. exists rest. cbn [app]. now rewrite E.
    + right. exists c. split; [exact Hc|]. cbn [app]. now rewrite E.
Qed.

Lemma filter_length_le :
  forall (A : Type) (f : A -> bool) (l : list A),
    (List.length (filter f l) <= List.length l)%nat.
Proof.
  intros A f l. induction l as [|a l IH]; cbn; [lia|].
  destruct (f a); cbn; lia.
Qed.

Lemma group_trace_calls :
  forall j args t,
    group_trace j args t ->
    exists uid done,
      filter is_mutation (calls t)
      = map (membership_call j (ga_as_owner args) uid) done
      /\ (List.length done <= List.length (ga_GROUP args))%nat.
Proof.
  intros j args t T.
  destruct T as [(O & -> & _)
                |(user & groups & done & rest & U & G & L & O & D & -> & E & F)].
  - exists 0%Z, []. split; [reflexivity|cbn; lia].
  - cbn zeta in *. exists (fst user), done. split; [reflexivity|].
    pose proof (filter_length_le _
                  (fun g => negb (is_noop j (ga_as_owner args) (fst user) g)) groups) as K.
    rewrite D, length_app in K. lia.
Qed.

Lemma halting_list_groups_loop :
  forall names acc, halting (list_groups_loop names acc).
Proof.
  induction names as [|name names IH]; intros acc; cbn [list_groups_loop].
  - apply halting_ret.
  - apply halting_bind; [exact (halting_call (FindGroup name false))|].
    intros r. destruct (snd r); apply IH.
Qed.

Lemma halting_filter_groups :
  forall groups uid o j, halting (filter_groups groups uid o j).
Proof.
  intros groups uid o j W h w. unfold trace, outcome_of.
  rewrite run_filter_groups. cbn [fst snd].
  assert (F : failures (map EvOut (map (noop_message j o uid)
                                     (filter (is_noop j o uid) groups))) = [])
    by apply failures_map_EvOut.
  split; [now apply stops_clean|]. intros a _. exact F.
Qed.

Lemma halting_group_command :
  forall j own_name args, halting (group_command j own_name args).
Proof.
  intros j own_name args.
  assert (U : halting (parse_userid own_name args)).
  { unfold parse_userid, find_user_by_id, find_user_by_name.
    destruct (ga_id args) as [[|ch u]|]; cbn [if_truthy];
      [destruct (ga_name args) as [[|ch' u']|]; cbn [if_truthy] | |
       destruct (ga_name args) as [[|ch' u']|]; cbn [if_truthy]];
      match goal with
      | |- halting (call ?c) => exact (halting_call c)
      end. }
  assert (G : halting (list_groups (ga_GROUP args))).
  { unfold list_groups. apply halting_bind; [apply halting_list_groups_loop|].
    intros gl. apply halting_bind; [|intros _; apply halting_ret].
    destruct gl; [exact (halting_call (ErrorNoGroupFound true))|apply halting_ret]. }
  destruct j; unfold group_command, joingroup, leavegroup;
    (apply halting_bind; [exact U|]); intros user;
    (apply halting_bind; [exact G|]); intros groups;
    (apply halting_bind; [apply halting_filter_groups|]); intros kept;
    apply halting_for_each; intros g; destruct (ga_as_owner args);
    unfold addownersbyid, addusersbyid, removeownersbyid, removeusersbyid;
    match goal with
    | |- halting (call ?c) => exact (halting_call c)
    end.
Qed.

(** C9, amended.  An invocation makes a short sequence of remote calls, in
    one order, and a call that raises is followed by no call.  [email]
    makes one remote call, [lookupExperimenters]; [list] makes that call
    and, when it answers, [getSecurityRoles]; [password] makes
    [setSecurityPassword] and then one password change, or a prefix of
    these two; [add] makes remote calls only: [lookupExperimenter],
    [lookupGroup] for the [member_of] entries, [getSecurityRoles] and one
    creation, or a prefix of these, and it is only after its first call,
    whose exception may mean that the login is free, that a call that raises
    is followed by no call; [joingroup] and [leavegroup] issue membership
    calls for one user and the requested role, at most as many as they have
    group arguments. *)
Theorem remote_calls_per_invocation :
  forall (W : Type) (h : env W) (w : W),
    (forall args,
        let t := trace h w (email_ args) in
        filter is_remote (calls t) = [LookupExperimenters]
        /\ stops_at_failure t = true)
    /\ (let t := trace h w list_ in
        filter is_remote (calls t)
        = LookupExperimenters
          :: match fst (h LookupExperimenters w) with
             | Ok _ => [GetSecurityRoles]
             | Raised _ => []
             end
        /\ stops_at_failure t = true)
    /\ (forall own_name args,
          let t := trace h w (password own_name args) in
          (exists own_pw pw rest,
              [SetSecurityPassword own_pw;
               if_truthy (pa_username args)
                 (fun u => ChangeUserPassword u pw) (ChangePassword pw)]
              = (filter is_remote (calls t) ++ rest)%list)
          /\ stops_at_failure t = true)
    /\ (forall args,
          let t := trace h w (add args) in
          let plan := LookupExperimenter (arg_username args)
                      :: (map LookupGroup (arg_member_of args)
                          ++ [GetSecurityRoles])%list in
          forallb is_remote (calls t) = true
          /\ ((exists rest, plan = (calls t ++ rest)%list)
              \/ (exists c, is_creation c = true
                            /\ calls t = (plan ++ [c])%list))
          /\ stops_at_failure (tl t) = true)
    /\ (forall own_name args,
          let tj := trace h w (joingroup own_name args) in
          let tl := trace h w (leavegroup own_name args) in
          (exists uid done,
              filter is_mutation (calls tj)
              = map (fun g => if ga_as_owner args then AddOwnersById g [uid]
                              else AddUsersById g [uid]) done
              /\ (List.length done <= List.length (ga_GROUP args))%nat)
          /\ stops_at_failure tj = true
          /\ (exists uid done,
                filter is_mutation (calls tl)
                = map (fun g => if ga_as_owner args then RemoveOwnersById g [uid]
                                else RemoveUsersById g [uid]) done
                /\ (List.length done <= List.length (ga_GROUP args))%nat)
          /\ stops_at_failure tl = true).
Proof.
  intros W h w. split; [|split; [|split; [|split]]].
  - intros args. apply email_remote_calls.
  - apply list_remote_calls.
  - intros own_name args. apply password_remote_calls.
  - intros args. apply add_remote_calls.
  - intros own_name args tj tl.
    destruct (group_trace_calls true args tj (run_joingroup W h w own_name args))
      as (uj & dj & Ej & Lj).
    destruct (group_trace_calls false args tl (run_leavegroup W h w own_name args))
      as (ul & dl & El & Ll).
    split; [exists uj, dj; split; [exact Ej|exact Lj]|].
    split; [exact (proj1 (halting_group_command true own_name args W h w))|].
    split; [exists ul, dl; split; [exact El|exact Ll]|].
    exact (proj1 (halting_group_command false own_name args W h w)).
Qed.

(** *** [password] *)



(** ** Further properties *)

(** *** [filter_groups] *)

(** X1.  [filter_groups] returns the groups for which the change is not a
    no-op, in their order and with their repetitions, prints one message per
    group it drops, in order, and invokes no operation: the removal from the
    list while a copy is iterated never drops another group. *)
Theorem filter_groups_keeps_effective_changes :
  forall (W : Type) (h : env W) (w : W) groups uid as_owner joining,
    run h w (filter_groups groups uid as_owner joining)
    = (map EvOut (map (noop_message joining as_owner uid)
                    (filter (is_noop joining as_owner uid) groups)),
       Returned (filter (fun g => negb (is_noop joining as_owner uid g)) groups),
       w)
    /\ calls (trace h w (filter_groups groups uid as_owner joining)) = []
    /\ errs (trace h w (filter_groups groups uid as_owner joining)) = [].
Proof.
  intros W h w groups uid o j. unfold trace.
  rewrite run_filter_groups. cbn [fst].
  rewrite calls_map_EvOut, errs_map_EvOut. auto.
Qed.

Lemma filter_filter_none :
  forall (A : Type) (f : A -> bool) (l : list A),
    filter f (filter (fun a => negb (f a)) l) = [].
Proof.
  intros A f l. induction l as [|a l IH]; [reflexivity|].
  cbn [filter]. destruct (f a) eqn:E; cbn [negb filter]; [exact IH|].
  rewrite E. exact IH.
Qed.

Lemma filter_filter_same :
  forall (A : Type) (f : A -> bool) (l : list A),
    filter f (filter f l) = filter f l.
Proof.
  intros A f l. induction l as [|a l IH]; [reflexivity|].
  cbn [filter]. destruct (f a) eqn:E; [|exact IH].
  cbn [filter]. rewrite E. now rewrite IH.
Qed.

(** X2.  Filtering the result of [filter_groups] again, for the same user,
    role and direction, drops nothing and prints nothing. *)
Theorem filter_groups_idempotent :
  forall (W : Type) (h : env W) (w : W) groups uid as_owner joining,
    let kept := filter (fun g => negb (is_noop joining as_owner uid g)) groups in
    outcome_of h w (filter_groups groups uid as_owner joining) = Returned kept
    /\ run h w (filter_groups kept uid as_owner joining) = ([], Returned kept, w).
Proof.
  intros W h w groups uid o j kept. unfold outcome_of.
  rewrite !run_filter_groups. cbn [fst snd]. split; [reflexivity|].
  unfold kept. rewrite filter_filter_none, filter_filter_same. reflexivity.
Qed.

Lemma filter_partition_perm :
  forall (A : Type) (f : A -> bool) (l : list A),
    Permutation (filter f l ++ filter (fun a => negb (f a)) l)%list l.
Proof.
  intros A f l. induction l as [|a l IH]; [constructor|].
  cbn [filter]. destruct (f a); cbn [negb app].
  - now constructor.
  - apply Permutation_sym. apply Permutation_cons_app.
    now apply Permutation_sym.
Qed.

(** X3.  For one user and one role, the groups that the join filter keeps
    and the groups that the leave filter keeps make up the list between
    them, and no group is kept by both: a group is a no-op for exactly one
    of the two directions. *)
Theorem join_and_leave_filters_partition :
  forall (W : Type) (h : env W) (w : W) groups uid as_owner,
    exists joined left,
      outcome_of h w (filter_groups groups uid as_owner true) = Returned joined
      /\ outcome_of h w (filter_groups groups uid as_owner false) = Returned left
      /\ Permutation (joined ++ left)%list groups
      /\ (forall g, In g joined -> In g left -> False).
Proof.
  intros W h w groups uid o. unfold outcome_of.
  rewrite !run_filter_groups. cbn [fst snd].
  eexists. eexists. split; [reflexivity|]. split; [reflexivity|]. split.
  - unfold is_noop.
    rewrite (filter_ext (fun g => negb (negb (mem uid (relation_ids o g))))
               (fun g => mem uid (relation_ids o g)))
      by (intros g; apply negb_involutive).
    eapply Permutation_trans; [apply Permutation_app_comm|].
    apply filter_partition_perm.
  - intros g Hj Hl. apply filter_In in Hj. apply filter_In in Hl.
    destruct Hj as [_ Hj]. destruct Hl as [_ Hl].
    unfold is_noop in Hj, Hl. rewrite negb_involutive in Hl.
    rewrite Hl in Hj. discriminate Hj.
Qed.

(** *** [list_groups] *)

Lemma list_groups_loop_calls :
  forall (W : Type) (h : env W) names (w w' : W) acc t o,
    run h w (list_groups_loop names acc) = (t, o, w') ->
    failures t = [] ->
    calls t = map (fun name => FindGroup name false) names
    /\ errs t = [].
Proof.
  intros W h names. induction names as [|name names IH]; intros w w' acc t o R F.
  - cbn in R. inversion R; subst. auto.
  - cbn [list_groups_loop] in R. unfold find_group, call in R. cbn in R.
    destruct (h (FindGroup name false) w) as [[[gid [g|]]|x] w1]; cbn in R.
    + destruct (run h w1 (list_groups_loop names (append acc g)))
        as [[t1 o1] w2] eqn:R1.
      inversion R; subst. destruct (IH _ _ _ _ _ R1 F) as [C E].
      rewrite calls_call, C. cbn [map]. auto.
    + destruct (run h w1 (list_groups_loop names acc)) as [[t1 o1] w2] eqn:R1.
      inversion R; subst. destruct (IH _ _ _ _ _ R1 F) as [C E].
      rewrite calls_call, C. cbn [map]. auto.
    + inversion R; subst. discriminate F.
Qed.

(** X4.  When no operation raises, [list_groups] looks up every argument
    once, in order and with [fatal = False], returns the groups that
    resolved, in that order, and calls [error_no_group_found] with
    [fatal = True], after the lookups, exactly when no argument resolved;
    it prints nothing itself. *)
Theorem list_groups_resolves_in_order :
  forall (W : Type) (h : env W) (w : W) names,
    let t := trace h w (list_groups names) in
    failures t = [] ->
    outcome_of h w (list_groups names) = Returned (collect found_group t)
    /\ calls t
       = (map (fun name => FindGroup name false) names
          ++ match collect found_group t with
             | [] => [ErrorNoGroupFound true]
             | _ :: _ => []
             end)%list
    /\ outs t = [] /\ errs t = [].
Proof.
  intros W h w names. unfold trace, outcome_of.
  destruct (run h w (list_groups names)) as [[t o] w'] eqn:R. cbn [fst snd].
  intros F. pose proof (run_list_groups W h names w w' t o R) as (Q & _ & _ & P).
  destruct Q as (O & _ & _).
  unfold list_groups in R. rewrite run_bind in R.
  destruct (run h w (list_groups_loop names [])) as [[t1 o1] w1] eqn:R1.
  pose proof (run_list_groups_loop W h names w w1 [] t1 o1 R1)
    as ((O1 & _ & _) & _ & _ & P1).
  destruct o1 as [gs|x].
  - destruct P1 as [-> F1]. cbn [app] in R.
    destruct (list_groups_loop_calls W h names w w1 [] t1 _ R1 F1) as [C1 E1].
    destruct (collect found_group t1) as [|g gs] eqn:G.
    + unfold error_no_group_found, call in R. cbn in R.
      destruct (h (ErrorNoGroupFound true) w1) as [[[]|x] w2]; cbn in R;
        inversion R; subst.
      * observe. rewrite C1, E1, G, O1. cbn. auto.
      * rewrite failures_app, F1 in F. discriminate F.
    + cbn in R. inversion R; subst. rewrite !app_nil_r. rewrite G, C1, E1, O1.
      rewrite app_nil_r. auto.
  - inversion R; subst. destruct P1 as (c & HIn). rewrite F in HIn.
    contradiction.
Qed.

(** *** The membership calls of [joingroup] and [leavegroup] *)

(** X5.  Let the environment resolve the user and at least one group.  The
    membership calls of [joingroup] are the calls for the groups that the
    filter keeps, in the order of the resolved groups and each for the
    single resolved user, [addownersbyid] with [as_owner] and
    [addusersbyid] without, up to the first that raises: after it no call
    is made and its exception is the outcome; when none raises all are made
    and the command returns.  The same holds of [leavegroup] with
    [removeownersbyid] and [removeusersbyid]. *)
Theorem group_commands_call_in_order :
  forall (W : Type) (h : env W) (w : W) own_name args user,
    let r := resolution h w own_name args in
    let groups := collect found_group (fst r) in
    let uid := fst user in
    let as_owner := ga_as_owner args in
    failures (fst r) = [] ->
    collect resolved_user (fst r) = [user] ->
    groups <> [] ->
    (let issued :=
       fst (replies h (snd r)
              (map (fun g => if as_owner then AddOwnersById g [uid]
                             else AddUsersById g [uid])
                 (filter (fun g => negb (mem uid (relation_ids as_owner g)))
                    groups))) in
     filter is_mutation (calls (trace h w (joingroup own_name args)))
     = calls (until_failure issued)
     /\ stops_at_failure (trace h w (joingroup own_name args)) = true
     /\ outcome_of h w (joingroup own_name args) = first_failure issued)
    /\ (let issued :=
          fst (replies h (snd r)
                 (map (fun g => if as_owner then RemoveOwnersById g [uid]
                                else RemoveUsersById g [uid])
                    (filter (fun g => mem uid (relation_ids as_owner g))
                       groups))) in
        filter is_mutation (calls (trace h w (leavegroup own_name args)))
        = calls (until_failure issued)
        /\ stops_at_failure (trace h w (leavegroup own_name args)) = true
        /\ outcome_of h w (leavegroup own_name args) = first_failure issued).
Proof.
  intros W h w own_name args user r groups uid as_owner F U N.
  assert (S : forall j,
             stops_at_failure (trace h w (group_command j own_name args)) = true).
  { intros j.
    destruct (group_command_resolved W h j w own_name args user F U N) as [T _].
    rewrite T, stops_app_clean by exact F.
    rewrite stops_app_clean by apply failures_map_EvOut.
    apply stops_until_failure. }
  split.
  - destruct (group_command_observed W h true w own_name args user F U N)
      as (_ & M & _ & Oc & _).
    split; [exact M|]. split; [exact (S true)|exact Oc].
  - destruct (group_command_observed W h false w own_name args user F U N)
      as (_ & M & _ & Oc & _).
    cbn zeta.
    replace (filter (fun g => mem uid (relation_ids as_owner g)) groups)
      with (filter (fun g => negb (is_noop false as_owner uid g)) groups).
    + split; [exact M|]. split; [exact (S false)|exact Oc].
    + apply filter_ext. intros g. unfold is_noop. apply negb_involutive.
Qed.

(** *** The calls and the channels of [add] *)


Lemma lookups_no_user :
  forall names t o, lookups names t o -> collect found_user t = [].
Proof.
  induction 1; auto.
Qed.

(** X6.  [add] makes its calls in one order: [lookupExperimenter] for the
    login, [lookupGroup] for the [member_of] entries in the order given,
    [getSecurityRoles], and last the creation.  The calls of an invocation
    are a prefix of that sequence. *)
Theorem add_calls_in_fixed_order :
  forall (W : Type) (h : env W) (w : W) (args : AddArgs),
    let t := trace h w (add args) in
    let plan := LookupExperimenter (arg_username args)
                :: (map LookupGroup (arg_member_of args)
                    ++ [GetSecurityRoles])%list in
    (exists rest, plan = (calls t ++ rest)%list)
    \/ (exists c, is_creation c = true /\ calls t = (plan ++ [c])%list).
Proof.
  intros W h w args. unfold trace.
  destruct (run h w (add args)) as [[t o] w'] eqn:R. cbn [fst].
  apply run_add in R. cbn zeta.
  destruct R as [usr I|usr I|x Hx|t o A|x t o Hx A].
  1-3: left; eexists; cbn; reflexivity.
  - rewrite calls_call. destruct (add_new_plan _ _ _ A) as [(rest & E)|(c & Hc & E)].
    + left. exists rest. cbn [app]. now rewrite E.
    + right. exists c. split; [exact Hc|]. cbn [app]. now rewrite E.
  - rewrite calls_call. destruct (add_new_plan _ _ _ A) as [(rest & E)|(c & Hc & E)].
    + left. exists rest. cbn [app]. now rewrite E.
    + right. exists c. split; [exact Hc|]. cbn [app]. now rewrite E.
Qed.






(** X20.  A [lookupGroup] that raises ends [add]: with exit code 68 when
    the exception is an [ApiUsageException] or one of its subclass
    [ValidationException], which the clause [except omero.ApiUsageException]
    catches, and with the exception itself otherwise. *)
Theorem add_unresolved_group :
  forall (W : Type) (h : env W) (w : W) (args : AddArgs) name x,
    let t := trace h w (add args) in
    In (LookupGroup name, x) (failures t) ->
    outcome_of h w (add args)
    = if is_api_usage x then Uncaught (NonZeroReturnCode 68) else Uncaught x.
Proof.
  intros W h w args name x. unfold trace, outcome_of.
  destruct (run h w (add args)) as [[t o] w'] eqn:R. cbn [fst snd].
  apply run_add in R.
  assert (N : forall t' o',
             add_new args t' o' -> In (LookupGroup name, x) (failures t') ->
             o' = if is_api_usage x then Uncaught (NonZeroReturnCode 68)
                  else Uncaught x).
  { intros t' o' A HIn.
    destruct (add_new_failures _ _ _ _ _ A HIn)
      as [(n & _ & E)|[(K & _)|(K & _)]]; [exact E|discriminate K..]. }
  destruct R as [usr I|usr I|y Hy|t o A|y t o Hy A].
  - intros [].
  - intros [].
  - intros [K|[]]. discriminate K.
  - apply (N _ _ A).
  - intros [K|K]; [discriminate K|]. exact (N _ _ A K).
Qed.

Lemma add_new_creation_clean :
  forall args t o c,
    add_new args t o -> In c (calls t) -> is_creation c = true ->
    List.length (collect resolved_group t) = List.length (arg_member_of args)
    /\ collect found_user t = []
    /\ (forall name x, ~ In (LookupGroup name, x) (failures t)).
Proof.
  intros args t o c H HIn Hc.
  assert (F : In c (filter is_creation (calls t))) by (apply filter_In; auto).
  clear HIn.
  destruct H as [tg y L Hy|tg y L Hy|tg gs y L
                |tg gs roles p sec i L M|tg gs roles p sec y L M];
    destruct (lookups_silent _ _ _ L) as (C & _);
    pose proof (lookups_no_user _ _ _ L) as U.
  - rewrite calls_app, filter_app, C in F. destruct F.
  - rewrite C in F. destruct F.
  - rewrite calls_app, filter_app, C in F. destruct F.
  - destruct (lookups_returned _ _ _ L) as (G & Fl & _).
    rewrite !collect_app, failures_app, G, U, Fl.
    unfold creation_event. destruct (arg_userpassword args); cbn;
      rewrite app_nil_r; (split; [eapply lookups_resolved_length; eassumption|]);
      (split; [reflexivity|]); intros name x [].
  - destruct (lookups_returned _ _ _ L) as (G & Fl & _).
    rewrite !collect_app, !failures_app, G, U, Fl.
    unfold creation_event, creation_failed.
    destruct (arg_userpassword args); destruct y as [m|m|m|rc|m];
      try destruct (is_constraint_violation m); cbn;
      rewrite app_nil_r; (split; [eapply lookups_resolved_length; eassumption|]);
      (split; [reflexivity|]); intros name x [K|[]]; discriminate K.
Qed.

(** X8.  A creation call is issued only when [lookupExperimenter] found no
    user and every [member_of] entry resolved: there are as many resolved
    groups as entries and no [lookupGroup] has raised. *)
Theorem add_creates_only_after_all_lookups :
  forall (W : Type) (h : env W) (w : W) (args : AddArgs) c,
    let t := trace h w (add args) in
    In c (calls t) -> is_creation c = true ->
    List.length (collect resolved_group t) = List.length (arg_member_of args)
    /\ collect found_user t = []
    /\ (forall name x, ~ In (LookupGroup name, x) (failures t)).
Proof.
  intros W h w args c. unfold trace.
  destruct (run h w (add args)) as [[t o] w'] eqn:R. cbn [fst].
  apply run_add in R.
  destruct R as [usr I|usr I|y Hy|t o A|y t o Hy A]; intros HIn Hc.
  1-3: cbn in HIn; in_cases HIn; subst c; discriminate Hc.
  - rewrite calls_call in HIn. destruct HIn as [<-|HIn]; [discriminate Hc|].
    destruct (add_new_creation_clean _ _ _ _ A HIn Hc) as (L & U & F).
    rewrite !collect_skip by reflexivity. auto.
  - rewrite calls_call in HIn. destruct HIn as [<-|HIn]; [discriminate Hc|].
    destruct (add_new_creation_clean _ _ _ _ A HIn Hc) as (L & U & F).
    rewrite !collect_skip by reflexivity. splits.
    intros name x [K|K]; [discriminate K|]. exact (F name x K).
Qed.

Lemma add_new_channels :
  forall args t o,
    add_new args t o ->
    (o = Returned tt -> List.length (outs t) = 1%nat /\ errs t = [])
    /\ (forall m, In m (errs t) ->
          errs t = [m] /\ outs t = []
          /\ exists rc, o = Uncaught (NonZeroReturnCode rc)
                        /\ In rc [66; 67; 68]%Z).
Proof.
  intros args t o H.
  destruct H as [tg y L Hy|tg y L Hy|tg gs y L
                |tg gs roles p sec i L M|tg gs roles p sec y L M];
    destruct (lookups_silent _ _ _ L) as (_ & O & E & _);
    rewrite ?outs_app, ?errs_app, ?O, ?E.
  - cbn. split; [discriminate|]. intros m' [<-|[]]. splits.
    exists 68%Z. cbn. auto.
  - split; [discriminate|]. intros m [].
  - cbn. split; [discriminate|]. intros m [].
  - unfold creation_event. destruct (arg_userpassword args); cbn;
      (split; [auto|intros m []]).
  - unfold creation_event, creation_failed.
    destruct (arg_userpassword args); destruct y as [m|m|m|rc|m];
      try destruct (is_constraint_violation m); cbn;
      (split; [discriminate|]);
      intros m' Hm'; in_cases Hm'; subst m'; splits;
      eexists; (split; [reflexivity|cbn; auto]).
Qed.

(** X9.  When [add] returns normally it has written exactly one line to the
    output channel and nothing to the error channel.  When it writes to the
    error channel, it writes one line there and nothing to the output
    channel, and the process exits with code 3, 66, 67 or 68. *)
Theorem add_writes_one_line :
  forall (W : Type) (h : env W) (w : W) (args : AddArgs),
    let t := trace h w (add args) in
    let o := outcome_of h w (add args) in
    (o = Returned tt -> List.length (outs t) = 1%nat /\ errs t = [])
    /\ (forall m, In m (errs t) ->
          errs t = [m] /\ outs t = []
          /\ exists rc, exit_code o = Some rc /\ In rc [3; 66; 67; 68]%Z).
Proof.
  intros W h w args. unfold trace, outcome_of.
  destruct (run h w (add args)) as [[t o] w'] eqn:R. cbn [fst snd].
  apply run_add in R.
  assert (N : forall t' o',
             add_new args t' o' ->
             (o' = Returned tt -> List.length (outs t') = 1%nat /\ errs t' = [])
             /\ (forall m, In m (errs t') ->
                   errs t' = [m] /\ outs t' = []
                   /\ exists rc, exit_code o' = Some rc
                                 /\ In rc [3; 66; 67; 68]%Z)).
  { intros t' o' A. destruct (add_new_channels _ _ _ A) as [K1 K2].
    split; [exact K1|]. intros m Hm.
    destruct (K2 m Hm) as (E & O & rc & -> & Hrc).
    splits. exists rc. split; [reflexivity|]. cbn in *. tauto. }
  destruct R as [usr I|usr I|y Hy|t o A|y t o Hy A].
  - cbn. split; [auto|intros m []].
  - cbn. split; [discriminate|]. intros m [<-|[]]. splits.
    exists 3%Z. auto.
  - cbn. split; [discriminate|intros m []].
  - apply (N _ _ A).
  - apply (N _ _ A).
Qed.

(** X10.  With an empty [member_of], which the command line cannot produce,
    [pop(0)] still finds an element: the primary group of the creation call
    is the default user group, and the secondary groups are none, or the
    system group alone with the admin flag. *)
Theorem add_without_groups :
  forall (W : Type) (h : env W) (w : W) (args : AddArgs) c,
    arg_member_of args = [] ->
    let t := trace h w (add args) in
    In c (calls t) -> is_creation c = true ->
    exists roles,
      collect roles_read t = [roles]
      /\ c = creation args (Grp (userGroupId roles) false)
               (if arg_admin args then [Grp (systemGroupId roles) false] else []).
Proof.
  intros W h w args c Hm. unfold trace.
  destruct (run h w (add args)) as [[t o] w'] eqn:R. cbn [fst].
  apply run_add in R. intros HIn Hc.
  assert (N : forall t' o',
             add_new args t' o' -> In c (calls t') ->
             exists roles,
               collect roles_read t' = [roles]
               /\ c = creation args (Grp (userGroupId roles) false)
                        (if arg_admin args
                         then [Grp (systemGroupId roles) false] else [])).
  { intros t' o' A HIn'.
    assert (F : In c (filter is_creation (calls t')))
      by (apply filter_In; auto).
    destruct (add_new_creation _ _ _ A)
      as [[E _]|(gs & roles & p & sec & M & Len & G & Ro & C & I)].
    - rewrite E in F. contradiction.
    - rewrite C in F. destruct F as [<-|[]].
      rewrite Hm in Len. destruct gs; [|discriminate Len].
      exists roles. split; [exact Ro|].
      unfold membership, append in M. destruct (arg_admin args);
        cbn in M; injection M as <- <-; reflexivity. }
  destruct R as [usr I|usr I|x Hx|t o A|x t o Hx A].
  1-3: cbn in HIn; in_cases HIn; subst c; discriminate Hc.
  - rewrite calls_call in HIn. destruct HIn as [<-|HIn]; [discriminate Hc|].
    destruct (N _ _ A HIn) as (roles & Ro & C). exists roles.
    rewrite collect_skip by reflexivity. auto.
  - rewrite calls_call in HIn. destruct HIn as [<-|HIn]; [discriminate Hc|].
    destruct (N _ _ A HIn) as (roles & Ro & C). exists roles.
    rewrite collect_skip by reflexivity. auto.
Qed.

(** *** What [password] reports *)

(** X11.  [password] prints "Password changed" exactly when it returns
    normally, and then a password change call has succeeded; it asks for the
    new password only after [setSecurityPassword] has accepted the caller's
    own. *)
Theorem password_reports_the_change :
  forall (W : Type) (h : env W) (w : W) own_name args,
    let t := trace h w (password own_name args) in
    let o := outcome_of h w (password own_name args) in
    (In "Password changed" (outs t) <-> o = Returned tt)
    /\ (o = Returned tt ->
        exists c, is_password_change c = true /\ In c (successes t))
    /\ (In (AskForPassword " to be set" None) (calls t) ->
        exists pw, In (SetSecurityPassword pw) (successes t)).
Proof.
  intros W h w own_name args. unfold trace, outcome_of.
  destruct (run h w (password own_name args)) as [[t o] w'] eqn:R.
  unfold password, _ask_for_password, setSecurityPassword, changePassword,
    changeUserPassword, out, dbg, die, call in R.
  cbn [fst snd].
  destruct (pa_username args) as [[|ch u]|]; explore R h;
    (split; [split; intros H; try discriminate H; try reflexivity;
             try (in_cases H; vm_compute in H; discriminate H);
             auto 10
            |split; intros H; try discriminate H;
             try (in_cases H; discriminate H);
             eexists; try (split; [|cbn; eauto 10]; reflexivity);
             auto 10]).
Qed.

(** X12.  [password] never writes a debug message: the traceback that
    follows [die] in the handler is not reached. *)
Theorem password_logs_no_traceback :
  forall (W : Type) (h : env W) (w : W) own_name args,
    dbgs (trace h w (password own_name args)) = [].
Proof.
  intros W h w own_name args. unfold trace.
  destruct (run h w (password own_name args)) as [[t o] w'] eqn:R.
  unfold password, _ask_for_password, setSecurityPassword, changePassword,
    changeUserPassword, out, dbg, die, call in R.
  cbn [fst].
  destruct (pa_username args) as [[|ch u]|]; explore R h; reflexivity.
Qed.

(** *** The edges of [email] *)

Lemma email_returns :
  forall (W : Type) (h : env W) (w w1 : W) (args : EmailArgs)
         (users : list Experimenter),
    h LookupExperimenters w = (Ok users, w1) ->
    outcome_of h w (email_ args) = Returned tt.
Proof.
  intros W h w w1 args users H. unfold outcome_of, email_.
  unfold lookupExperimenters, call. cbn [bind run]. rewrite H.
  cbn [bind]. rewrite email_loop. cbn [app].
  set (records := map (email_entry args) (filter has_email users)).
  set (skipped := filter (fun u => negb (has_email u)) users).
  rewrite run_bind.
  assert (E : run h w1 (if ea_one args then for_each records out
                        else out (join ", " records))
              = (map EvOut (if ea_one args then records
                            else [join ", " records]), Returned tt, w1)).
  { destruct (ea_one args); [apply run_for_each_out | reflexivity]. }
  rewrite E. clear E.
  destruct (ea_ignore args); [reflexivity|].
  destruct skipped as [|u l]; [reflexivity|].
  cbn [bind err]. cbn [run]. rewrite run_for_each_err. reflexivity.
Qed.

Lemma filter_none :
  forall (A : Type) (f : A -> bool) (l : list A),
    forallb (fun a => negb (f a)) l = true -> filter f l = [].
Proof.
  intros A f l. induction l as [|a l IH]; [reflexivity|].
  cbn. destruct (f a); cbn; [discriminate|exact IH].
Qed.

Lemma forallb_negb_negb :
  forall (A : Type) (f : A -> bool) (l : list A),
    forallb (fun a => negb (negb (f a))) l = forallb f l.
Proof.
  intros A f l. induction l as [|a l IH]; [reflexivity|].
  cbn [forallb]. now rewrite negb_involutive, IH.
Qed.

(** X13.  When [lookupExperimenters] raises, [email] prints nothing and the
    exception propagates.  When it answers, [email] returns normally,
    whatever emails are missing; if no user has an email (also when there is
    no user) it prints one empty line, and nothing at all with [one]; if
    every user has one it writes nothing to the error channel. *)
Theorem email_edges :
  forall (W : Type) (h : env W) (w : W) (args : EmailArgs),
    let t := trace h w (email_ args) in
    let o := outcome_of h w (email_ args) in
    (forall x w1,
        h LookupExperimenters w = (Raised x, w1) ->
        t = [EvCall LookupExperimenters (Raised x)] /\ o = Uncaught x)
    /\ (forall users w1,
          h LookupExperimenters w = (Ok users, w1) ->
          o = Returned tt
          /\ (forallb (fun u => negb (has_email u)) users = true ->
              outs t = if ea_one args then [] else [EmptyString])
          /\ (forallb has_email users = true -> errs t = [])).
Proof.
  intros W h w args t o. split.
  - intros x w1 H. unfold t, o, trace, outcome_of, email_, lookupExperimenters, call.
    cbn. rewrite H. auto.
  - intros users w1 H. split; [exact (email_returns W h w w1 args users H)|].
    unfold t. rewrite (email_trace W h w w1 args users H).
    rewrite !outs_call. change (errs (EvCall LookupExperimenters (Ok users) :: ?l))
      with (errs l).
    rewrite outs_app, errs_app, outs_map_EvOut, errs_map_EvOut.
    rewrite (outs_map_EvErr string (fun s => s)), (errs_map_EvErr string (fun s => s)).
    rewrite map_id, app_nil_r. cbn [app]. split.
    + intros N. rewrite (filter_none _ has_email users N).
      destruct (ea_one args); reflexivity.
    + intros A. rewrite (filter_none _ (fun u => negb (has_email u)) users).
      * destruct (ea_ignore args); reflexivity.
      * rewrite forallb_negb_negb. exact A.
Qed.

(** *** The table of [list] *)

(** X14.  The active and admin columns hold "Yes" or nothing, and "Yes"
    only for a user with a link to the default user group, respectively to
    a system group that is not also the default user group. *)
Theorem list_flags_come_from_links :
  forall (roles : Roles) (user : Experimenter),
    let ug := userGroupId roles in
    let sg := systemGroupId roles in
    let row := row_of ug sg user in
    (col_active row = "Yes" \/ col_active row = EmptyString)
    /\ (col_admin row = "Yes" \/ col_admin row = EmptyString)
    /\ (col_active row = "Yes" ->
        exists x, In (Some x) (groupExperimenterMap user) /\ parent x = ug)
    /\ (col_admin row = "Yes" ->
        exists x, In (Some x) (groupExperimenterMap user)
                  /\ parent x = sg /\ sg <> ug).
Proof.
  intros roles user ug sg row. unfold row, row_of.
  cbn [col_active col_admin]. rewrite flags_of_spec. cbn [active admin].
  destruct (groups_in Active ug sg (links_of user)) as [|a la] eqn:A;
    destruct (groups_in Admin ug sg (links_of user)) as [|b lb] eqn:B;
    cbn [negb yes_if]; (split; [auto|]); (split; [auto|]); split;
    intros H; try discriminate H.
  - assert (K : In b (groups_in Admin ug sg (links_of user)))
      by (rewrite B; now left).
    apply groups_in_column in K. destruct K as (x & Hx & Px & K).
    exists x. split; [now apply in_links_of|].
    unfold column_of in K. destruct (ug =? parent x)%Z eqn:E1; [discriminate K|].
    destruct (sg =? parent x)%Z eqn:E2;
      [|destruct (owner x); discriminate K].
    apply Z.eqb_eq in E2. apply Z.eqb_neq in E1. split; [congruence|congruence].
  - assert (K : In a (groups_in Active ug sg (links_of user)))
      by (rewrite A; now left).
    apply groups_in_column in K. destruct K as (x & Hx & Px & K).
    exists x. split; [now apply in_links_of|].
    unfold column_of in K. destruct (ug =? parent x)%Z eqn:E1.
    + apply Z.eqb_eq in E1. congruence.
    + destruct (sg =? parent x)%Z; [|destruct (owner x)]; discriminate K.
  - assert (K : In a (groups_in Active ug sg (links_of user)))
      by (rewrite A; now left).
    apply groups_in_column in K. destruct K as (x & Hx & Px & K).
    exists x. split; [now apply in_links_of|].
    unfold column_of in K. destruct (ug =? parent x)%Z eqn:E1.
    + apply Z.eqb_eq in E1. congruence.
    + destruct (sg =? parent x)%Z; [|destruct (owner x)]; discriminate K.
  - assert (K : In b (groups_in Admin ug sg (links_of user)))
      by (rewrite B; now left).
    apply groups_in_column in K. destruct K as (x & Hx & Px & K).
    exists x. split; [now apply in_links_of|].
    unfold column_of in K. destruct (ug =? parent x)%Z eqn:E1; [discriminate K|].
    destruct (sg =? parent x)%Z eqn:E2;
      [|destruct (owner x); discriminate K].
    apply Z.eqb_eq in E2. apply Z.eqb_neq in E1. split; [congruence|congruence].
Qed.

(** X15.  The member-of column of a user holds the comma-joined ids, in
    link order and with repetitions, of the groups of the links without the
    owner flag whose group is neither the default user group nor the system
    group; null links count for nothing. *)
Theorem list_member_of_column :
  forall (roles : Roles) (user : Experimenter),
    let ug := userGroupId roles in
    let sg := systemGroupId roles in
    col_member_of (row_of ug sg user)
    = column (map str (map parent
        (filter (fun x => negb (owner x) && negb (parent x =? ug)%Z
                          && negb (parent x =? sg)%Z)
           (links_of user)))).
Proof.
  intros roles user ug sg. unfold row_of. cbn [col_member_of].
  rewrite flags_of_spec. cbn [member_of]. unfold groups_in.
  do 3 f_equal. apply filter_ext. intros x. unfold column_of.
  rewrite (Z.eqb_sym (parent x) ug), (Z.eqb_sym (parent x) sg).
  destruct (ug =? parent x)%Z, (sg =? parent x)%Z, (owner x); reflexivity.
Qed.

Lemma strict_by_id :
  forall l,
    StronglySorted by_id l -> NoDup (map id l) ->
    StronglySorted (fun a b => (id a < id b)%Z) l.
Proof.
  induction 1 as [|u l H IH F]; intros N.
  - constructor.
  - cbn [map] in N. inversion N as [|? ? Hu N']; subst. constructor; [auto|].
    rewrite Forall_forall in *. intros v Hv.
    specialize (F v Hv). unfold by_id in F.
    assert (id v <> id u).
    { intros E. apply Hu. rewrite <- E. now apply in_map. }
    lia.
Qed.

Lemma strictly_sorted_unique :
  forall l1 l2 : list Experimenter,
    StronglySorted (fun a b => (id a < id b)%Z) l1 ->
    StronglySorted (fun a b => (id a < id b)%Z) l2 ->
    Permutation l1 l2 -> l1 = l2.
Proof.
  induction l1 as [|a l1 IH]; intros l2 S1 S2 P.
  - apply Permutation_nil in P. now subst.
  - destruct l2 as [|b l2].
    + apply Permutation_sym, Permutation_nil in P. discriminate P.
    + inversion S1 as [|? ? S1' F1]; subst.
      inversion S2 as [|? ? S2' F2]; subst.
      rewrite Forall_forall in F1, F2.
      assert (E : a = b).
      { assert (Ha : In a (b :: l2))
          by (eapply Permutation_in; [exact P|now left]).
        assert (Hb : In b (a :: l1))
          by (eapply Permutation_in; [apply Permutation_sym; exact P|now left]).
        destruct Ha as [Ha|Ha]; [now symmetry|].
        destruct Hb as [Hb|Hb]; [assumption|].
        specialize (F1 b Hb). specialize (F2 a Ha). lia. }
      subst b. f_equal. apply IH; auto.
      eapply Permutation_cons_inv; exact P.
Qed.

(** X16.  The table does not depend on the order in which the service
    returns the users, their ids being pairwise distinct. *)
Theorem list_rows_order_independent :
  forall (roles : Roles) (users users' : list Experimenter),
    Permutation users users' ->
    NoDup (map id users) ->
    list_rows roles users = list_rows roles users'.
Proof.
  intros roles users users' P N. unfold list_rows. f_equal.
  assert (N' : NoDup (map id users'))
    by (eapply Permutation_NoDup; [apply Permutation_map; exact P|exact N]).
  apply strictly_sorted_unique.
  - apply strict_by_id; [apply sort_by_id_sorted|].
    eapply Permutation_NoDup; [|exact N].
    apply Permutation_map, Permutation_sym, sort_by_id_perm.
  - apply strict_by_id; [apply sort_by_id_sorted|].
    eapply Permutation_NoDup; [|exact N'].
    apply Permutation_map, Permutation_sym, sort_by_id_perm.
  - rewrite sort_by_id_perm, P. symmetry. apply sort_by_id_perm.
Qed.

Lemma insert_by_id_stable :
  forall k u l,
    filter (fun v => (id v =? k)%Z) (insert_by_id u l)
    = filter (fun v => (id v =? k)%Z) (u :: l).
Proof.
  intros k u l. induction l as [|v l IH]; [reflexivity|].
  cbn [insert_by_id]. destruct (id u <=? id v)%Z eqn:E; [reflexivity|].
  apply Z.leb_gt in E. cbn [filter] in *. rewrite IH.
  destruct (id u =? k)%Z eqn:Eu, (id v =? k)%Z eqn:Ev; try reflexivity.
  apply Z.eqb_eq in Eu, Ev. lia.
Qed.

(** X17.  The sort of [list] is stable: the rows of users with one and the
    same id are in the order in which the service returned those users. *)
Theorem list_rows_stable :
  forall (roles : Roles) (users : list Experimenter) (k : Z),
    filter (fun r => (col_id r =? k)%Z) (list_rows roles users)
    = map (row_of (userGroupId roles) (systemGroupId roles))
        (filter (fun u => (id u =? k)%Z) users).
Proof.
  intros roles users k. unfold list_rows.
  assert (S : filter (fun u => (id u =? k)%Z) (sort_by_id users)
              = filter (fun u => (id u =? k)%Z) users).
  { induction users as [|u users IH]; [reflexivity|].
    cbn [sort_by_id]. rewrite insert_by_id_stable. cbn [filter].
    now rewrite IH. }
  rewrite <- S. generalize (sort_by_id users). intros l.
  induction l as [|u l IH]; [reflexivity|].
  cbn [map filter col_id row_of]. destruct (id u =? k)%Z; cbn [map]; now rewrite IH.
Qed.

(** X18.  [list] prints the table, one message, exactly when both of its
    calls answer, and then returns normally; when one raises it prints
    nothing.  It never writes to the error channel. *)
Theorem list_prints_one_table :
  forall (W : Type) (h : env W) (w : W),
    let t := trace h w list_ in
    let o := outcome_of h w list_ in
    errs t = []
    /\ ((exists users roles,
           collect listed_users t = [users]
           /\ collect roles_read t = [roles]
           /\ successes t = [LookupExperimenters; GetSecurityRoles]
           /\ outs t = [TableBuilder header (list_rows roles users)]
           /\ o = Returned tt)
        \/ (outs t = [] /\ o <> Returned tt /\ failures t <> [])).
Proof.
  intros W h w. unfold trace, outcome_of.
  destruct (run h w list_) as [[t o] w'] eqn:R. cbn [fst snd].
  unfold list_, lookupExperimenters, getSecurityRoles, out, call in R.
  explore R h; (split; [reflexivity|]).
  - left. eauto 10.
  - right. splits. split; discriminate.
  - right. splits. split; discriminate.
Qed.

End UserControl.

(** *** The role that the filter consults *)

Lemma filter_groups_loop_owner :
  forall getuserids getuserids' getownerids pending groups uid j,
    filter_groups_loop getuserids getownerids pending groups uid true j
    = filter_groups_loop getuserids' getownerids pending groups uid true j.
Proof.
  intros gu gu' go pending. induction pending as [|g pending IH];
    intros groups uid j; [reflexivity|].
  cbn [filter_groups_loop]. destruct j, (mem uid (go g)); cbn [negb];
    now rewrite ?IH.
Qed.

Lemma filter_groups_loop_member :
  forall getuserids getownerids getownerids' pending groups uid j,
    filter_groups_loop getuserids getownerids pending groups uid false j
    = filter_groups_loop getuserids getownerids' pending groups uid false j.
Proof.
  intros gu go go' pending. induction pending as [|g pending IH];
    intros groups uid j; [reflexivity|].
  cbn [filter_groups_loop]. destruct j, (mem uid (gu g)); cbn [negb];
    now rewrite ?IH.
Qed.

(** C10.  With [as_owner] the filter reads the owner ids of a group only,
    and without it the user ids only.  So, the environment resolving the
    user and the groups, for a resolved group of which the user is a member
    and not an owner, [joingroup --as-owner] issues the add-owners call,
    unless a membership call has raised, and [leavegroup --as-owner] reports
    the user as not owner of the group and issues no membership call about
    it. *)
Theorem filter_consults_requested_role :
  forall (getuserids getownerids : ExperimenterGroup -> list Z),
    (forall getuserids' groups uid j,
        filter_groups getuserids getownerids groups uid true j
        = filter_groups getuserids' getownerids groups uid true j)
    /\ (forall getownerids' groups uid j,
          filter_groups getuserids getownerids groups uid false j
          = filter_groups getuserids getownerids' groups uid false j)
    /\ (forall (W : Type) (h : env W) (w : W) own_name args user g,
          let r := resolution h w own_name args in
          let uid := fst user in
          let tj := trace h w (joingroup getuserids getownerids own_name args) in
          let tl := trace h w (leavegroup getuserids getownerids own_name args) in
          ga_as_owner args = true ->
          failures (fst r) = [] ->
          collect resolved_user (fst r) = [user] ->
          In g (collect found_group (fst r)) ->
          mem uid (getuserids g) = true ->
          mem uid (getownerids g) = false ->
          (In (AddOwnersById g [uid]) (calls tj)
           \/ exists c x, is_mutation c = true /\ In (c, x) (failures tj))
          /\ In (str uid ++ " is not owner of group " ++ str (group_id g))
               (outs tl)
          /\ (forall c, In c (calls tl) -> mutated_group c <> Some g)).
Proof.
  intros gu go. split; [|split].
  - intros gu' groups uid j. apply filter_groups_loop_owner.
  - intros go' groups uid j. apply filter_groups_loop_member.
  - intros W h w own_name args user g r uid tj tl Ho F U Hg Hm Hn.
    assert (N : collect found_group (fst r) <> [])
      by (intros E; rewrite E in Hg; exact Hg).
    split; [|split].
    + pose proof (group_command_issues gu go W h true w own_name args user g
                    F U Hg) as K.
      rewrite Ho in K. apply K. unfold is_noop, relation_ids. exact Hn.
    + destruct (group_command_observed gu go W h false w own_name args user F U N)
        as (O & _).
      change (outs tl
              = map (noop_message false (ga_as_owner args) (fst user))
                  (filter (is_noop gu go false (ga_as_owner args) (fst user))
                     (collect found_group (fst r)))) in O.
      rewrite O, Ho. apply in_map_iff. exists g. split; [reflexivity|].
      apply filter_In. split; [exact Hg|].
      unfold is_noop, relation_ids. fold uid. now rewrite Hn.
    + destruct (group_command_observed gu go W h false w own_name args user F U N)
        as (_ & _ & _ & _ & G).
      intros c Hc E. destruct (G c g Hc E) as [_ E'].
      unfold is_noop, relation_ids in E'. rewrite Ho in E'. fold uid in E'.
      rewrite Hn in E'. discriminate E'.
Qed.

(** ** The properties on the example environment *)



Lemma add_existing_login_witness :
  outcome_of server (world0 []) (add never_constraint bob_again) = Returned tt
  /\ filter is_creation
       (calls (trace server (world0 []) (add never_constraint bob_again))) = [].
Proof.
  destruct (add_existing_login never_constraint World server
              (world0 []) (world0 []) bob_again bob eq_refl) as (C & I & _).
  split; [apply I; reflexivity|exact C].
Defined.

Lemma add_alice_witness :
  let t := trace server (world0 []) (add never_constraint alice) in
  calls t
  = [LookupExperimenter "alice"; LookupGroup "groupA"; GetSecurityRoles;
     CreateExperimenterWithPassword (Exp alice) "secret" groupA [Grp 1 false]]
  /\ outs t = ["Added user 5 with password"].
Proof.
  destruct (add_primary_and_secondary_groups never_constraint World server
              (world0 []) (world0 []) alice
              (Raised (ApiUsageException "No such experimenter: alice"))
              groupA [] {| userGroupId := 1; systemGroupId := 0 |}
              eq_refl eq_refl eq_refl eq_refl eq_refl) as [C I].
  split; [exact C|]. apply (I 5). reflexivity.
Defined.

Lemma add_exit_codes_witness :
  exit_code (outcome_of server (world0 []) (add never_constraint carol)) = Some 68.
Proof.
  apply (proj1 (add_exit_codes never_constraint World server (world0 []) carol)
           "nowhere" "No such group: nowhere").
  vm_compute. auto.
Defined.

Lemma list_rows_witness :
  StronglySorted Z.lt
    (map col_id (list_rows (w_roles (world0 [])) (w_users (world0 [])))).
Proof.
  apply (list_rows_sorted_and_flagged plain_table World server
           (world0 []) (world0 []) (world0 [])
           (w_users (world0 [])) (w_roles (world0 [])) eq_refl eq_refl).
  - repeat constructor; cbn; intuition discriminate.
  - discriminate.
Defined.

(** root has an owner link to the system group: it shows as admin. *)
Lemma list_leader_of_column_witness :
  col_admin (row_of 1 0 root) = "Yes".
Proof.
  apply (proj2 (proj2 (proj2 (proj2 (list_leader_of_column
                                       {| userGroupId := 1; systemGroupId := 0 |}
                                       root)))
                  (link 0 0 true) (or_introl eq_refl) eq_refl) eq_refl).
  discriminate.
Defined.

(** root owns the system group and leads no group in the table. *)
Lemma list_owner_not_leader :
  let row := row_of 1 0 root in
  In row (list_rows (w_roles (world0 [])) (w_users (world0 [])))
  /\ In (Some (link 0 0 true)) (groupExperimenterMap root)
  /\ owner (link 0 0 true) = true
  /\ col_leader_of row = EmptyString
  /\ ~ In (str 0) (column_entries (col_leader_of row)).
Proof.
  vm_compute. repeat split; auto.
  intros [H|[]]. discriminate H.
Qed.

Lemma email_channels_witness :
  errs (trace server (world0 [])
          (email_ {| ea_names := true; ea_one := true; ea_ignore := false |}))
  = ["Missing email addresses:"; "Root User"].
Proof.
  apply (email_channels World server (world0 []) (world0 [])
           {| ea_names := true; ea_one := true; ea_ignore := false |}
           (w_users (world0 [])) eq_refl).
Defined.

(** root joins groupA twice: the second invocation, run on the state that
    the first one left, issues no membership call.  root leaves groupA
    without being in it. *)
Lemma group_change_noop_witness :
  let join := joingroup link_userids link_ownerids "root" root_groupA in
  let leave := leavegroup link_userids link_ownerids "root" root_groupA in
  let after := snd (run server (world0 []) join) in
  filter is_mutation (calls (trace server (world0 []) join))
  = [AddUsersById groupA [0]]
  /\ In "0 is already in group 3" (outs (trace server after join))
  /\ filter is_mutation (calls (trace server after join)) = []
  /\ In "0 is not in group 3" (outs (trace server (world0 []) leave))
  /\ outcome_of server (world0 []) leave = Returned tt.
Proof.
  cbv zeta. split; [reflexivity|].
  pose proof (group_change_noop link_userids link_ownerids World server
                (snd (run server (world0 [])
                        (joingroup link_userids link_ownerids "root" root_groupA)))
                "root" root_groupA (0, "root") eq_refl eq_refl
                ltac:(vm_compute; discriminate)) as (J1 & J2 & _).
  pose proof (group_change_noop link_userids link_ownerids World server
                (world0 []) "root" root_groupA (0, "root") eq_refl eq_refl
                ltac:(vm_compute; discriminate)) as (_ & _ & L1 & L2 & _).
  split; [|split; [|split]].
  - apply (J1 {| group_id := 3; group_loaded := true;
                 group_map := [link 3 2 false; link 3 0 false] |}).
    + vm_compute. auto.
    + reflexivity.
  - apply J2. intros g H. vm_compute in H. destruct H as [<-|[]]. reflexivity.
  - apply (L1 groupA).
    + vm_compute. auto.
    + reflexivity.
  - apply L2. intros g H. vm_compute in H. destruct H as [<-|[]]. reflexivity.
Defined.

(** [list] makes two remote calls. *)
Lemma list_two_remote_calls :
  filter is_remote (calls (trace server (world0 []) (list_ plain_table)))
  = [LookupExperimenters; GetSecurityRoles].
Proof.
  vm_compute. reflexivity.
Qed.

Lemma filter_consults_requested_role_witness :
  In (AddOwnersById groupA [2])
    (calls (trace server (world0 [])
              (joingroup link_userids link_ownerids "root" (bob_groupA true))))
  /\ In "2 is not owner of group 3"
       (outs (trace server (world0 [])
                (leavegroup link_userids link_ownerids "root" (bob_groupA true)))).
Proof.
  destruct (proj2 (proj2 (filter_consults_requested_role
                            link_userids link_ownerids))
              World server (world0 []) "root" (bob_groupA true)
              (2, "bob") groupA eq_refl eq_refl eq_refl
              (or_introl eq_refl) eq_refl eq_refl)
    as ([J|(c & x & _ & K)] & L & _).
  - split; [exact J|exact L].
  - vm_compute in K. contradiction.
Defined.

(** *** The helper [check_default_xml] *)

Lemma endpoint_step_spec :
  forall prefix tcp ssl ws wss l tp,
    endpoint_step prefix tcp ssl ws wss l tp
    = (l ++ if known_transport tp
            then [(tp ++ " -p " ++ prefix ++ str (port_of tcp ssl ws wss tp))%string]
            else [])%list.
Proof.
  intros prefix tcp ssl ws wss l tp.
  unfold endpoint_step, known_transport, port_of, append.
  destruct (String.eqb_spec tp "tcp") as [->|_]; [now rewrite app_nil_r || reflexivity|].
  destruct (String.eqb_spec tp "ssl") as [->|_]; [reflexivity|].
  destruct (String.eqb_spec tp "ws") as [->|_]; [reflexivity|].
  destruct (String.eqb_spec tp "wss") as [->|_]; [reflexivity|].
  cbn. now rewrite app_nil_r.
Qed.

Lemma client_endpoint_fold :
  forall prefix tcp ssl ws wss transports l,
    fold_left (endpoint_step prefix tcp ssl ws wss) transports l
    = (l ++ map (fun tp => (tp ++ " -p " ++ prefix
                            ++ str (port_of tcp ssl ws wss tp))%string)
              (filter known_transport transports))%list.
Proof.
  intros prefix tcp ssl ws wss transports.
  induction transports as [|tp transports IH]; intros l.
  - cbn. now rewrite app_nil_r.
  - cbn [fold_left filter]. rewrite IH, endpoint_step_spec.
    destruct (known_transport tp); cbn [map]; rewrite <- app_assoc; reflexivity.
Qed.

(** X19.  The expected endpoint list has one endpoint per transport named
    tcp, ssl, ws or wss, in the order given and with repetitions, each made
    of the transport's name and its port; other names add nothing, so they
    do not change what [check_default_xml] accepts. *)
Theorem check_default_xml_ignores_unknown_transports :
  forall (text : string -> string) prefix tcp ssl ws wss transports,
    client_endpoint_list prefix tcp ssl ws wss transports
    = map (fun tp => tp ++ " -p " ++ prefix ++ str (port_of tcp ssl ws wss tp))
        (filter known_transport transports)
    /\ check_default_xml text prefix tcp ssl ws wss (Some transports)
       = check_default_xml text prefix tcp ssl ws wss
           (Some (filter known_transport transports)).
Proof.
  intros text prefix tcp ssl ws wss transports.
  assert (E : forall l, client_endpoint_list prefix tcp ssl ws wss l
                        = map (fun tp => tp ++ " -p " ++ prefix
                                         ++ str (port_of tcp ssl ws wss tp))
                            (filter known_transport l)).
  { intros l. unfold client_endpoint_list. now rewrite client_endpoint_fold. }
  split; [apply E|].
  unfold check_default_xml, default_transports, client_endpoints.
  rewrite (E transports), (E (filter known_transport transports)).
  assert (F : filter known_transport (filter known_transport transports)
              = filter known_transport transports).
  { induction transports as [|tp l IH]; [reflexivity|].
    cbn [filter]. destruct (known_transport tp) eqn:K; [|exact IH].
    cbn [filter]. rewrite K. now rewrite IH. }
  now rewrite F.
Qed.

(** *** The further properties on the example environment *)

Lemma list_groups_resolves_in_order_witness :
  outcome_of server (world0 []) (list_groups ["nowhere"; "groupA"])
  = Returned [groupA].
Proof.
  apply (proj1 (list_groups_resolves_in_order World server (world0 [])
                  ["nowhere"; "groupA"] eq_refl)).
Defined.

Lemma group_commands_call_in_order_witness :
  filter is_mutation
    (calls (trace server (world0 [])
              (joingroup link_userids link_ownerids "root" (bob_groupA true))))
  = [AddOwnersById groupA [2]].
Proof.
  rewrite (proj1 (proj1 (group_commands_call_in_order link_userids link_ownerids
                           World server (world0 []) "root" (bob_groupA true)
                           (2, "bob") eq_refl eq_refl
                           ltac:(vm_compute; discriminate)))).
  reflexivity.
Defined.


Lemma add_creates_only_after_all_lookups_witness :
  List.length
    (collect resolved_group (trace server (world0 []) (add never_constraint alice)))
  = 1%nat.
Proof.
  apply (proj1 (add_creates_only_after_all_lookups never_constraint World server
                  (world0 []) alice
                  (CreateExperimenterWithPassword (Exp alice) "secret" groupA
                     [Grp 1 false])
                  ltac:(vm_compute; auto 10) eq_refl)).
Defined.

Lemma add_writes_one_line_witness :
  List.length (outs (trace server (world0 []) (add never_constraint alice)))
  = 1%nat.
Proof.
  apply (proj1 (add_writes_one_line never_constraint World server
                  (world0 []) alice)).
  reflexivity.
Defined.

Lemma add_without_groups_witness :
  exists roles,
    collect roles_read (trace server (world0 []) (add never_constraint nobody))
    = [roles]
    /\ CreateExperimenter (Exp nobody) (Grp 1 false) [Grp 0 false]
       = creation nobody (Grp (userGroupId roles) false)
           (if arg_admin nobody then [Grp (systemGroupId roles) false] else []).
Proof.
  apply (add_without_groups never_constraint World server (world0 []) nobody
           (CreateExperimenter (Exp nobody) (Grp 1 false) [Grp 0 false])
           eq_refl).
  - vm_compute. auto 10.
  - reflexivity.
Defined.

Lemma password_reports_the_change_witness :
  In "Password changed"
    (outs (trace server (world0 ["ome"; "new"])
             (password no_traceback "root" {| pa_username := None |}))).
Proof.
  apply (proj1 (password_reports_the_change no_traceback World server
                  (world0 ["ome"; "new"]) "root" {| pa_username := None |})).
  reflexivity.
Defined.

Lemma email_edges_witness :
  outcome_of server (world0 [])
    (email_ {| ea_names := false; ea_one := false; ea_ignore := false |})
  = Returned tt.
Proof.
  apply (proj1 (proj2 (email_edges World server (world0 [])
                         {| ea_names := false; ea_one := false;
                            ea_ignore := false |})
                  (w_users (world0 [])) (world0 []) eq_refl)).
Defined.

Lemma list_flags_come_from_links_witness :
  exists x, In (Some x) (groupExperimenterMap bob) /\ parent x = 1%Z.
Proof.
  apply (proj1 (proj2 (proj2 (list_flags_come_from_links
                                {| userGroupId := 1; systemGroupId := 0 |} bob)))).
  reflexivity.
Defined.

Lemma list_rows_order_independent_witness :
  list_rows {| userGroupId := 1; systemGroupId := 0 |} [bob; root]
  = list_rows {| userGroupId := 1; systemGroupId := 0 |} [root; bob].
Proof.
  apply list_rows_order_independent.
  - apply perm_swap.
  - repeat constructor; cbn; intuition discriminate.
Defined.

Lemma add_unresolved_group_witness :
  outcome_of server (world0 []) (add never_constraint carol)
  = Uncaught (NonZeroReturnCode 68).
Proof.
  apply (add_unresolved_group never_constraint World server (world0 []) carol
           "nowhere" (ApiUsageException "No such group: nowhere")).
  vm_compute. auto.
Defined.
